(** * BlogList: the list transformation engine of src/js/BlogList.js

    A shallow embedding of the [BlogList] class: the record collection
    fetched from the API, the search / category / sort pipeline of
    [applyFiltersAndSorting], the cumulative slice taken by [render], and
    the loading / error surface driven by [init].

    Modelling conventions.
    - JavaScript strings are [string]s; an absent (undefined) property of a
      record is [None].  Numbers that the component computes with are
      integers ([Z]); the only non-integer number that can arise is [NaN]
      (the time value of an invalid [Date]), which [number] makes explicit.
    - Arrays live in a store ([gmap loc (list Blog)]) because
      [Array.prototype.sort] works in place: [this.items] and
      [this.filteredItems] hold locations, and copying ([[...xs]]),
      [filter] and JSON decoding allocate.
    - Methods are state transformers with exceptions ([M]); [try] /
      [catch] / [finally] are combinators of that monad.
    - What belongs to the JavaScript host rather than to the component
      (lower-casing, date parsing, collation, date formatting, the text of
      a [TypeError]) is the interface [Host]; every theorem holds for
      every host, and [refHost] is an instance to compute with.
    - The handlers of src/js/main.js (the mobile menu and the navigation
      highlight) and of the [DragDrop] class act on the page itself: class
      lists are ordered sets of tokens ([ClassList]), the menu and the
      links are records of the attributes the handlers read and write, and
      the document of [DragDrop] is a tree of elements with identities
      ([Dom]). *)

From Stdlib Require Import ZArith String Ascii List DecimalString.
From Stdlib Require Import Sorted Permutation Lia.
From stdpp Require Import base numbers list gmap strings.

Local Open Scope string_scope.
Local Open Scope Z_scope.

(** ** JavaScript values and built-ins used by the component *)

Module JS.

(** A JavaScript number as the component meets it: an integer or NaN. *)
Inductive number : Type :=
| NaN : number
| Num (z : Z) : number.

(** [x - y] on numbers; NaN is absorbing.  The host rounds a difference
    of time values beyond 2^53; rounding keeps the sign, and the sign is
    all the sort reads of it. *)
Definition sub (x y : number) : number :=
  match x, y with
  | Num a, Num b => Num (a - b)
  | _, _ => NaN
  end.

(** Truthiness of a string: the empty string is falsy. *)
Definition truthy (s : string) : bool :=
  match s with
  | EmptyString => false
  | String _ _ => true
  end.

(** [x || d] for a possibly absent string property. *)
Definition or_str (x : option string) (d : string) : string :=
  match x with
  | Some s => if truthy s then s else d
  | None => d
  end.

(** [x || d] for a possibly absent integer property: 0 is falsy. *)
Definition or_num (x : option Z) (d : Z) : Z :=
  match x with
  | Some z => if z =? 0 then d else z
  | None => d
  end.

(** Template-literal conversion of an integer, as in [`${n}`]. *)
Definition toString (z : Z) : string :=
  NilZero.string_of_int (Z.to_int z).

(** Truthiness of a possibly absent string property. *)
Definition truthy_opt (x : option string) : bool :=
  match x with
  | Some s => truthy s
  | None => false
  end.

(** Template-literal conversion of a possibly absent string property. *)
Definition show (x : option string) : string :=
  match x with
  | Some s => s
  | None => "undefined"
  end.

(** [s.startsWith(t)]. *)
Fixpoint startsWith (s t : string) : bool :=
  match t, s with
  | EmptyString, _ => true
  | String c t', String d s' => if Ascii.eqb c d then startsWith s' t' else false
  | String _ _, EmptyString => false
  end.

(** [s.includes(t)]: [t] occurs in [s] at some position. *)
Fixpoint includes (s t : string) : bool :=
  if startsWith s t then true
  else match s with
       | EmptyString => false
       | String _ s' => includes s' t
       end.

(** [s.substring(0, n)] for [n >= 0]. *)
Definition substring0 (s : string) (n : nat) : string :=
  String.substring 0 n s.

(** [xs.slice(0, end)]: a negative [end] counts from the end of the
    array, and the bounds are clamped to the array. *)
Definition slice0 {A} (xs : list A) (end_ : Z) : list A :=
  let len := Z.of_nat (length xs) in
  let final := if end_ <? 0 then Z.max (len + end_) 0 else Z.min end_ len in
  firstn (Z.to_nat final) xs.

(** [xs.join('')]. *)
Definition join (xs : list string) : string :=
  fold_right String.append EmptyString xs.

(** *** [Array.prototype.sort]

    The comparator's result is used through [SortCompare]: NaN counts as
    [+0], a negative value puts the first argument first.  ECMAScript
    requires the sort to be stable and fixes its result whenever the
    comparator is consistent on the array; otherwise the order is left to
    the implementation.  The model is the stable insertion sort:
    [sort (x :: rest)] puts [x] in front of the first element [y] of the
    sorted [rest] with [SortCompare x y <= 0], so [x] stays before the
    elements it ties with. *)
Section Sort.
Context {A : Type} (comparefn : A -> A -> number).

Definition SortCompare (x y : A) : Z :=
  match comparefn x y with
  | NaN => 0
  | Num v => v
  end.

Fixpoint insert (x : A) (sorted : list A) : list A :=
  match sorted with
  | [] => [x]
  | y :: rest =>
      if SortCompare x y <=? 0 then x :: y :: rest
      else y :: insert x rest
  end.

Fixpoint sort (xs : list A) : list A :=
  match xs with
  | [] => []
  | x :: rest => insert x (sort rest)
  end.
End Sort.

End JS.

(** ** The host interface

    [Date_parse s] is the time value of [new Date(s)] in milliseconds, NaN
    for a string the host cannot parse; [localeCompare] is
    [String.prototype.localeCompare] under the host's default collation;
    [toLocaleDateString] formats a valid time value; [nullRead p] and
    [nullWrite p] are the messages of the [TypeError] raised when property
    [p] of [null] is read or assigned.  The one law the development
    relies on is that lower-casing the empty string gives the empty
    string. *)

Class Host : Type := {
  toLowerCase : string -> string;
  Date_parse : string -> JS.number;
  localeCompare : string -> string -> Z;
  toLocaleDateString : Z -> string;
  nullRead : string -> string;
  nullWrite : string -> string;
  toLowerCase_empty : toLowerCase EmptyString = EmptyString
}.

(** ** Records *)

(** One blog post as decoded from the API's JSON.  Every property may be
    absent; properties that are present have the type the component
    expects (strings, and whole minutes for [reading_time]). *)
Record Blog : Type := {
  title : option string;
  content : option string;
  category : option string;
  author : option string;
  image : option string;
  reading_time : option Z;
  published_date : option string
}.

Section Engine.
Context `{host : Host}.

(** The time value of [new Date(x)]; [new Date(undefined)] is invalid. *)
Definition Date (x : option string) : JS.number :=
  match x with
  | Some s => Date_parse s
  | None => JS.NaN
  end.

(** [new Date(x).toLocaleDateString()]. *)
Definition Date_toLocaleDateString (x : option string) : string :=
  match Date x with
  | JS.Num t => toLocaleDateString t
  | JS.NaN => "Invalid Date"
  end.

(** *** The callbacks of [applyFiltersAndSorting] *)

(** [blog => (blog.title || '').toLowerCase().includes(searchTerm)] *)
Definition searchCallback (searchTerm : string) (blog : Blog) : bool :=
  JS.includes (toLowerCase (JS.or_str (title blog) EmptyString)) searchTerm.

(** [blog => (blog.category === categoryFilter)] *)
Definition categoryCallback (categoryFilter : string) (blog : Blog) : bool :=
  match category blog with
  | Some c => String.eqb c categoryFilter
  | None => false
  end.

(** The comparator passed to [workingList.sort], a [switch] on
    [sortType]. *)
Definition comparator (sortType : string) (a b : Blog) : JS.number :=
  if String.eqb sortType "date" then
    JS.sub (Date (published_date b)) (Date (published_date a))
  else if String.eqb sortType "reading_time" then
    JS.Num (JS.or_num (reading_time a) 0 - JS.or_num (reading_time b) 0)
  else if String.eqb sortType "category" then
    JS.Num (localeCompare (JS.or_str (category a) EmptyString)
                          (JS.or_str (category b) EmptyString))
  else JS.Num 0.

(** *** The three numbered steps on array contents *)

(** Step 1: [value] is [this.searchInput.value]. *)
Definition searchStep (value : string) (workingList : list Blog) : list Blog :=
  let searchTerm := toLowerCase (JS.or_str (Some value) EmptyString) in
  if JS.truthy searchTerm then List.filter (searchCallback searchTerm) workingList
  else workingList.

(** Step 2: [categoryFilter] is [this.filterSelect.value]. *)
Definition categoryStep (categoryFilter : string) (workingList : list Blog)
  : list Blog :=
  if JS.truthy categoryFilter then
    List.filter (categoryCallback categoryFilter) workingList
  else workingList.

(** Step 3: [sortType] is [this.sortSelect.value]. *)
Definition sortStep (sortType : string) (workingList : list Blog) : list Blog :=
  if JS.truthy sortType then JS.sort (comparator sortType) workingList
  else workingList.

(** The three steps in a row: what [applyFiltersAndSorting] leaves in
    [this.filteredItems], as a function of the contents of [this.items]
    and the values of the three controls (the specification calls it
    [deriveView]; [applyFiltersAndSorting_view] relates the two). *)
Definition deriveView (master : list Blog) (searchTerm categoryFilter sortType : string)
  : list Blog :=
  sortStep sortType (categoryStep categoryFilter (searchStep searchTerm master)).

(** *** The card template of [render] *)

Definition dq : string := String "034"%char EmptyString.
Definition nl : string := String "010"%char EmptyString.

(** [s] between double quotes, as an attribute value is written. *)
Definition quoted (s : string) : string := dq +:+ s +:+ dq.

(** [${item.reading_time || 5} min read] *)
Definition readingTimeLabel (item : Blog) : string :=
  JS.toString (JS.or_num (reading_time item) 5) +:+ " min read".

Definition readingTimeSpan (item : Blog) : string :=
  "<span class=" +:+ quoted "blog-reading-time" +:+ ">" +:+
  readingTimeLabel item +:+ "</span>".

Definition imageTag (item : Blog) : string :=
  if JS.truthy_opt (image item) then
    "<img src=" +:+ quoted (JS.show (image item)) +:+
    " alt=" +:+ quoted (JS.show (title item)) +:+
    " class=" +:+ quoted "blog-image" +:+
    " loading=" +:+ quoted "lazy" +:+ " />"
  else EmptyString.

(** The lines of the template before and after the reading-time line. *)
Definition cardHead (item : Blog) : string :=
  nl +:+
  "            <article class=" +:+ quoted "blog-card" +:+ ">" +:+ nl +:+
  "                " +:+ imageTag item +:+ nl +:+
  "                <div class=" +:+ quoted "blog-content" +:+ ">" +:+ nl +:+
  "                    <h3 class=" +:+ quoted "blog-title" +:+ ">" +:+
    JS.show (title item) +:+ "</h3>" +:+ nl +:+
  "                    <p class=" +:+ quoted "blog-excerpt" +:+ ">" +:+
    JS.substring0 (JS.or_str (content item) EmptyString) 150 +:+ "...</p>" +:+ nl +:+
  "                    <div class=" +:+ quoted "blog-meta" +:+ ">" +:+ nl +:+
  "                        <span class=" +:+ quoted "blog-author" +:+ ">By " +:+
    JS.or_str (author item) "Unknown" +:+ "</span>" +:+ nl +:+
  "                        <span class=" +:+ quoted "blog-category" +:+ ">" +:+
    JS.or_str (category item) "General" +:+ "</span>" +:+ nl +:+
  "                        ".

Definition cardTail (item : Blog) : string :=
  nl +:+
  "                        <time class=" +:+ quoted "blog-date" +:+ ">" +:+
    Date_toLocaleDateString (published_date item) +:+ "</time>" +:+ nl +:+
  "                    </div>" +:+ nl +:+
  "                </div>" +:+ nl +:+
  "            </article>" +:+ nl +:+
  "        ".

(** The template literal mapped over the slice. *)
Definition card (item : Blog) : string :=
  cardHead item +:+ readingTimeSpan item +:+ cardTail item.

Definition noResults : string :=
  "<p class=" +:+ quoted "no-results" +:+
  ">No blogs found matching your criteria.</p>".

(** The slice [render] displays and the markup it writes for it. *)
Definition renderSlice (view : list Blog) (page perPage : Z) : list Blog :=
  JS.slice0 view (page * perPage).

Definition renderHTML (slice : list Blog) : string :=
  if (Z.of_nat (length slice) =? 0)%Z then noResults
  else JS.join (map card slice).

End Engine.

(** ** The component's state *)

(** A DOM element as far as the component touches it: whether its class
    list contains [hidden], its content ([innerHTML] or [textContent],
    whichever the component writes), and the [value] of a form control. *)
Record Element : Type := {
  hidden : bool;
  text : string;
  value : string
}.

Definition with_hidden (b : bool) (e : Element) : Element :=
  {| hidden := b; text := text e; value := value e |}.
Definition with_text (t : string) (e : Element) : Element :=
  {| hidden := hidden e; text := t; value := value e |}.
Definition with_value (v : string) (e : Element) : Element :=
  {| hidden := hidden e; text := text e; value := v |}.

(** Array references. *)
Abbreviation loc := positive.

(** The instance fields of [BlogList] together with the store its arrays
    live in.  The six elements are the results of [querySelector], [None]
    for [null]; they are distinct elements of the page.  [listening]
    records that [setupEventListeners] ran, [searchTimer] that the
    debounce timer of the search input is pending. *)
Record BlogList : Type := {
  listContainer : option Element;
  loadingIndicator : option Element;
  errorContainer : option Element;
  sortSelect : option Element;
  filterSelect : option Element;
  searchInput : option Element;
  items : loc;
  filteredItems : loc;
  page : Z;
  perPage : Z;
  heap : gmap loc (list Blog);
  listening : bool;
  searchTimer : bool
}.

Definition set_listContainer (x : option Element) (s : BlogList) : BlogList :=
  {| listContainer := x; loadingIndicator := loadingIndicator s;
     errorContainer := errorContainer s; sortSelect := sortSelect s;
     filterSelect := filterSelect s; searchInput := searchInput s;
     items := items s; filteredItems := filteredItems s; page := page s;
     perPage := perPage s; heap := heap s; listening := listening s;
     searchTimer := searchTimer s |}.
Definition set_loadingIndicator (x : option Element) (s : BlogList) : BlogList :=
  {| listContainer := listContainer s; loadingIndicator := x;
     errorContainer := errorContainer s; sortSelect := sortSelect s;
     filterSelect := filterSelect s; searchInput := searchInput s;
     items := items s; filteredItems := filteredItems s; page := page s;
     perPage := perPage s; heap := heap s; listening := listening s;
     searchTimer := searchTimer s |}.
Definition set_errorContainer (x : option Element) (s : BlogList) : BlogList :=
  {| listContainer := listContainer s; loadingIndicator := loadingIndicator s;
     errorContainer := x; sortSelect := sortSelect s;
     filterSelect := filterSelect s; searchInput := searchInput s;
     items := items s; filteredItems := filteredItems s; page := page s;
     perPage := perPage s; heap := heap s; listening := listening s;
     searchTimer := searchTimer s |}.
Definition set_sortSelect (x : option Element) (s : BlogList) : BlogList :=
  {| listContainer := listContainer s; loadingIndicator := loadingIndicator s;
     errorContainer := errorContainer s; sortSelect := x;
     filterSelect := filterSelect s; searchInput := searchInput s;
     items := items s; filteredItems := filteredItems s; page := page s;
     perPage := perPage s; heap := heap s; listening := listening s;
     searchTimer := searchTimer s |}.
Definition set_filterSelect (x : option Element) (s : BlogList) : BlogList :=
  {| listContainer := listContainer s; loadingIndicator := loadingIndicator s;
     errorContainer := errorContainer s; sortSelect := sortSelect s;
     filterSelect := x; searchInput := searchInput s;
     items := items s; filteredItems := filteredItems s; page := page s;
     perPage := perPage s; heap := heap s; listening := listening s;
     searchTimer := searchTimer s |}.
Definition set_searchInput (x : option Element) (s : BlogList) : BlogList :=
  {| listContainer := listContainer s; loadingIndicator := loadingIndicator s;
     errorContainer := errorContainer s; sortSelect := sortSelect s;
     filterSelect := filterSelect s; searchInput := x;
     items := items s; filteredItems := filteredItems s; page := page s;
     perPage := perPage s; heap := heap s; listening := listening s;
     searchTimer := searchTimer s |}.
Definition set_items (x : loc) (s : BlogList) : BlogList :=
  {| listContainer := listContainer s; loadingIndicator := loadingIndicator s;
     errorContainer := errorContainer s; sortSelect := sortSelect s;
     filterSelect := filterSelect s; searchInput := searchInput s;
     items := x; filteredItems := filteredItems s; page := page s;
     perPage := perPage s; heap := heap s; listening := listening s;
     searchTimer := searchTimer s |}.
Definition set_filteredItems (x : loc) (s : BlogList) : BlogList :=
  {| listContainer := listContainer s; loadingIndicator := loadingIndicator s;
     errorContainer := errorContainer s; sortSelect := sortSelect s;
     filterSelect := filterSelect s; searchInput := searchInput s;
     items := items s; filteredItems := x; page := page s;
     perPage := perPage s; heap := heap s; listening := listening s;
     searchTimer := searchTimer s |}.
Definition set_page (x : Z) (s : BlogList) : BlogList :=
  {| listContainer := listContainer s; loadingIndicator := loadingIndicator s;
     errorContainer := errorContainer s; sortSelect := sortSelect s;
     filterSelect := filterSelect s; searchInput := searchInput s;
     items := items s; filteredItems := filteredItems s; page := x;
     perPage := perPage s; heap := heap s; listening := listening s;
     searchTimer := searchTimer s |}.
Definition set_heap (x : gmap loc (list Blog)) (s : BlogList) : BlogList :=
  {| listContainer := listContainer s; loadingIndicator := loadingIndicator s;
     errorContainer := errorContainer s; sortSelect := sortSelect s;
     filterSelect := filterSelect s; searchInput := searchInput s;
     items := items s; filteredItems := filteredItems s; page := page s;
     perPage := perPage s; heap := x; listening := listening s;
     searchTimer := searchTimer s |}.
Definition set_listening (x : bool) (s : BlogList) : BlogList :=
  {| listContainer := listContainer s; loadingIndicator := loadingIndicator s;
     errorContainer := errorContainer s; sortSelect := sortSelect s;
     filterSelect := filterSelect s; searchInput := searchInput s;
     items := items s; filteredItems := filteredItems s; page := page s;
     perPage := perPage s; heap := heap s; listening := x;
     searchTimer := searchTimer s |}.
Definition set_searchTimer (x : bool) (s : BlogList) : BlogList :=
  {| listContainer := listContainer s; loadingIndicator := loadingIndicator s;
     errorContainer := errorContainer s; sortSelect := sortSelect s;
     filterSelect := filterSelect s; searchInput := searchInput s;
     items := items s; filteredItems := filteredItems s; page := page s;
     perPage := perPage s; heap := heap s; listening := listening s;
     searchTimer := x |}.

(** ** Methods as state transformers with exceptions *)

(** A thrown value: every exception the component can meet is an [Error]
    (or a subclass such as [TypeError]) and is used only through
    [.message]. *)
Record exn : Type := Error { message : string }.

Inductive Completion (A : Type) : Type :=
| Normal (a : A) (s : BlogList)
| Throw (e : exn) (s : BlogList).
Arguments Normal {A} a s.
Arguments Throw {A} e s.

(** The state a completion leaves behind. *)
Definition state_of {A} (c : Completion A) : BlogList :=
  match c with
  | Normal _ s => s
  | Throw _ s => s
  end.

Definition M (A : Type) : Type := BlogList -> Completion A.

#[export] Instance M_ret : MRet M := fun A a s => Normal a s.
#[export] Instance M_bind : MBind M := fun A B k m s =>
  match m s with
  | Normal a s' => k a s'
  | Throw e s' => Throw e s'
  end.

Definition throw {A} (e : exn) : M A := fun s => Throw e s.
Definition gets {A} (f : BlogList -> A) : M A := fun s => Normal (f s) s.
Definition modify (f : BlogList -> BlogList) : M unit := fun s => Normal tt (f s).

(** [try { body } catch (e) { handler e }] *)
Definition try_catch {A} (body : M A) (handler : exn -> M A) : M A := fun s =>
  match body s with
  | Normal a s' => Normal a s'
  | Throw e s' => handler e s'
  end.

(** [try { body } finally { final }]: [final] runs on both completions; an
    exception of [final] replaces the completion of [body]. *)
Definition try_finally {A} (body : M A) (final : M unit) : M A := fun s =>
  match body s with
  | Normal a s' =>
      match final s' with
      | Normal _ s'' => Normal a s''
      | Throw e s'' => Throw e s''
      end
  | Throw e s' =>
      match final s' with
      | Normal _ s'' => Throw e s''
      | Throw e' s'' => Throw e' s''
      end
  end.

(** [try { body } catch (e) { handler e } finally { final }] *)
Definition try_catch_finally {A} (body : M A) (handler : exn -> M A)
    (final : M unit) : M A :=
  try_finally (try_catch body handler) final.

(** ** What the network can answer *)

(** The value [res.json()] resolves to, or the message of its rejection
    when the body is not JSON. *)
Inductive Body : Type :=
| NotJson (msg : string)
| JsonArray (data : list Blog)
| JsonOther.

(** The outcome of [fetch(this.apiUrl)]: a rejection (network failure)
    with its message, or a response with its status and body. *)
Inductive FetchResult : Type :=
| Rejected (msg : string)
| Response (status : Z) (body : Body).

(** [res.ok]: the status is in the range 200-299. *)
Definition ok (status : Z) : bool := (200 <=? status) && (status <=? 299).

(** ** The methods of [BlogList] *)

Section Component.
Context `{host : Host}.

(** Allocation of a new array and access to an array's contents. *)
Definition alloc (xs : list Blog) : M loc := fun s =>
  let l := fresh (dom (heap s)) in
  Normal l (set_heap (<[l := xs]> (heap s)) s).

Definition contents (h : gmap loc (list Blog)) (l : loc) : list Blog :=
  default [] (h !! l).

Definition read (l : loc) : M (list Blog) := gets (fun s => contents (heap s) l).

(** [[...xs]] *)
Definition spread (l : loc) : M loc := xs ← read l; alloc xs.

(** [xs.filter(f)]: a new array. *)
Definition Array_filter (f : Blog -> bool) (l : loc) : M loc :=
  xs ← read l; alloc (List.filter f xs).

(** [xs.sort(comparefn)]: sorts the array [xs] itself. *)
Definition Array_sort (comparefn : Blog -> Blog -> JS.number) (l : loc) : M unit :=
  xs ← read l;
  modify (fun s => set_heap (<[l := JS.sort comparefn xs]> (heap s)) s).

(** [el.value] for an element that may be [null]. *)
Definition get_value (el : BlogList -> option Element) : M string := fun s =>
  match el s with
  | Some e => Normal (value e) s
  | None => Throw (Error (nullRead "value")) s
  end.

(** [this.listContainer.innerHTML = html] *)
Definition set_innerHTML (html : string) : M unit := fun s =>
  match listContainer s with
  | Some e => Normal tt (set_listContainer (Some (with_text html e)) s)
  | None => Throw (Error (nullWrite "innerHTML")) s
  end.

(** The constructor, given the six elements found under the container. *)
Definition constructor (listContainer loadingIndicator errorContainer
    sortSelect filterSelect searchInput : option Element) : BlogList :=
  {| listContainer := listContainer; loadingIndicator := loadingIndicator;
     errorContainer := errorContainer; sortSelect := sortSelect;
     filterSelect := filterSelect; searchInput := searchInput;
     items := 1%positive; filteredItems := 2%positive;
     page := 1; perPage := 10;
     heap := <[2%positive := []]> (<[1%positive := []]> ∅);
     listening := false; searchTimer := false |}.

Definition showLoading : M unit :=
  modify (fun s => set_loadingIndicator (with_hidden false <$> loadingIndicator s) s).

Definition hideLoading : M unit :=
  modify (fun s => set_loadingIndicator (with_hidden true <$> loadingIndicator s) s).

Definition showError (err : exn) : M unit :=
  ec ← gets errorContainer;
  match ec with
  | None => mret tt
  | Some e =>
      modify (set_errorContainer (Some (with_hidden false e)));;
      modify (fun s => set_errorContainer
        (with_text ("Error: " +:+ message err +:+
                    ". Please check the console for details.")
           <$> errorContainer s) s);;
      set_innerHTML EmptyString;;
      hideLoading
  end.

Definition render : M unit :=
  end_ ← gets (fun s => page s * perPage s);
  view ← (l ← gets filteredItems; read l);
  let slice := JS.slice0 view end_ in
  set_innerHTML EmptyString;;
  if (Z.of_nat (length slice) =? 0)%Z then
    set_innerHTML noResults
  else
    let html := JS.join (map card slice) in
    set_innerHTML html.

Definition applyFiltersAndSorting : M unit :=
  workingList ← (l ← gets items; spread l);
  (* 1. search *)
  v ← get_value searchInput;
  let searchTerm := toLowerCase (JS.or_str (Some v) EmptyString) in
  workingList ← (if JS.truthy searchTerm
                 then Array_filter (searchCallback searchTerm) workingList
                 else mret workingList);
  (* 2. category *)
  categoryFilter ← get_value filterSelect;
  workingList ← (if JS.truthy categoryFilter
                 then Array_filter (categoryCallback categoryFilter) workingList
                 else mret workingList);
  (* 3. sort *)
  sortType ← get_value sortSelect;
  (if JS.truthy sortType
   then Array_sort (comparator sortType) workingList
   else mret tt);;
  modify (set_filteredItems workingList);;
  render.

Definition onControlChange : M unit :=
  modify (set_page 1);;
  applyFiltersAndSorting.

Definition setupEventListeners : M unit :=
  modify (set_listening true).

Definition fetchData (res : FetchResult) : M unit :=
  try_catch
    (match res with
     | Rejected msg => throw (Error msg)
     | Response status body =>
         if negb (ok status) then
           throw (Error ("Failed to fetch blogs (Status: " +:+ JS.toString status +:+ ")"))
         else
           match body with
           | NotJson msg => throw (Error msg)
           | JsonOther => throw (Error "Unexpected API response structure")
           | JsonArray data => l ← alloc data; modify (set_items l)
           end
     end)
    (fun error => throw (Error ("Data loading failed: " +:+ message error))).

(** [init], with the outcome of the network request as a parameter. *)
Definition init (res : FetchResult) : M unit :=
  try_catch_finally
    (showLoading;;
     fetchData res;;
     setupEventListeners;;
     applyFiltersAndSorting)
    (fun err => showError err)
    hideLoading.

(** [init] is asynchronous: it runs up to [await fetch(...)], and resumes
    when the request has settled.  [init_resume] is the part that runs
    from there on, still inside the [try]. *)
Definition init_resume (res : FetchResult) : M unit :=
  try_catch_finally
    (fetchData res;;
     setupEventListeners;;
     applyFiltersAndSorting)
    (fun err => showError err)
    hideLoading.

(** *** The event loop

    What can happen to the component once it is constructed.  A select
    fires [change] as its value changes; the search input fires [input],
    whose listener restarts the debounce timer; the timer fires later.
    Listeners exist only after [setupEventListeners], and an exception
    raised inside a listener is reported by the host and leaves the state
    as it was when raised. *)
Inductive event : Type :=
| ChangeSort (v : string)
| ChangeFilter (v : string)
| InputSearch (v : string)
| TimerFires.

Definition handle (ev : event) (s : BlogList) : BlogList :=
  match ev with
  | ChangeSort v =>
      match sortSelect s with
      | Some e =>
          let s' := set_sortSelect (Some (with_value v e)) s in
          if listening s' then state_of (onControlChange s') else s'
      | None => s
      end
  | ChangeFilter v =>
      match filterSelect s with
      | Some e =>
          let s' := set_filterSelect (Some (with_value v e)) s in
          if listening s' then state_of (onControlChange s') else s'
      | None => s
      end
  | InputSearch v =>
      match searchInput s with
      | Some e =>
          let s' := set_searchInput (Some (with_value v e)) s in
          if listening s' then set_searchTimer true s' else s'
      | None => s
      end
  | TimerFires =>
      if searchTimer s then state_of (onControlChange (set_searchTimer false s))
      else s
  end.

Inductive phase : Type := Created | Loading | Settled.

(** One turn of the event loop, as [main.js] drives the component: it is
    constructed, [init] is called once, the request settles once, and
    events arrive at any time. *)
Inductive step : phase * BlogList -> phase * BlogList -> Prop :=
| step_init s :
    step (Created, s) (Loading, state_of (showLoading s))
| step_settle s res :
    step (Loading, s) (Settled, state_of (init_resume res s))
| step_event ph s ev :
    step (ph, s) (ph, handle ev s).

Definition reachable (s : BlogList) : Prop :=
  exists lc li ec ss fs si ph,
    rtc step (Created, constructor lc li ec ss fs si) (ph, s).

End Component.

(** ** Runs of the event loop and outcomes of a load *)

Section Runs.
Context `{host : Host}.

(** The events of [evs] handled one after the other. *)
Definition run (evs : list event) (s : BlogList) : BlogList :=
  fold_left (fun s' ev => handle ev s') evs s.

(** The message of the error raised inside the [try] block of
    [fetchData]; [None] when the response is an array with a status in
    200-299. *)
Definition failure_cause (res : FetchResult) : option string :=
  match res with
  | Rejected msg => Some msg
  | Response status body =>
      if ok status then
        match body with
        | NotJson msg => Some msg
        | JsonOther => Some "Unexpected API response structure"
        | JsonArray _ => None
        end
      else Some ("Failed to fetch blogs (Status: " +:+ JS.toString status +:+ ")")
  end.

(** The text [showError] writes for an error with message [msg]. *)
Definition errorText (msg : string) : string :=
  "Error: " +:+ msg +:+ ". Please check the console for details.".

End Runs.

(** ** A reference host

    An instance of [Host] to evaluate the component on concrete inputs:
    ASCII lower-casing, the date-only form [YYYY-MM-DD] of the ECMAScript
    date-time format (read as UTC; every other string is rejected),
    comparison by character code, dates written [M/D/YYYY] in UTC, and
    the messages V8 gives. *)

Module RefHost.

Definition lower_ascii (c : ascii) : ascii :=
  let n := nat_of_ascii c in
  if ((65 <=? n) && (n <=? 90))%nat then ascii_of_nat (n + 32) else c.

Fixpoint lower (s : string) : string :=
  match s with
  | EmptyString => EmptyString
  | String c s' => String (lower_ascii c) (lower s')
  end.

Definition digit (c : ascii) : option Z :=
  let n := nat_of_ascii c in
  if ((48 <=? n) && (n <=? 57))%nat then Some (Z.of_nat (n - 48)) else None.

(** The number written by a run of decimal digits. *)
Fixpoint digits (acc : Z) (cs : list ascii) : option Z :=
  match cs with
  | [] => Some acc
  | c :: cs' =>
      match digit c with
      | Some d => digits (10 * acc + d) cs'
      | None => None
      end
  end.

Definition is_leap (y : Z) : bool :=
  ((y mod 4 =? 0) && negb (y mod 100 =? 0)) || (y mod 400 =? 0).

Definition days_in_month (y m : Z) : Z :=
  if m =? 2 then (if is_leap y then 29 else 28)
  else if (m =? 4) || (m =? 6) || (m =? 9) || (m =? 11) then 30
  else 31.

(** Days from 1970-01-01 to the civil date [y]-[m]-[d]. *)
Definition days_from_civil (y m d : Z) : Z :=
  let y' := if m <=? 2 then y - 1 else y in
  let era := y' / 400 in
  let yoe := y' - era * 400 in
  let doy := (153 * (if 2 <? m then m - 3 else m + 9) + 2) / 5 + d - 1 in
  let doe := yoe * 365 + yoe / 4 - yoe / 100 + doy in
  era * 146097 + doe - 719468.

(** The civil date (year, month, day) of a day number. *)
Definition civil_from_days (z : Z) : Z * Z * Z :=
  let z := z + 719468 in
  let era := z / 146097 in
  let doe := z - era * 146097 in
  let yoe := (doe - doe / 1460 + doe / 36524 - doe / 146096) / 365 in
  let doy := doe - (365 * yoe + yoe / 4 - yoe / 100) in
  let mp := (5 * doy + 2) / 153 in
  let d := doy - (153 * mp + 2) / 5 + 1 in
  let m := if mp <? 10 then mp + 3 else mp - 9 in
  let y := yoe + era * 400 in
  (if m <=? 2 then y + 1 else y, m, d).

Definition msPerDay : Z := 86400000.

Definition parse (s : string) : JS.number :=
  match list_ascii_of_string s with
  | [y1; y2; y3; y4; sep1; m1; m2; sep2; d1; d2] =>
      match digits 0 [y1; y2; y3; y4], digits 0 [m1; m2], digits 0 [d1; d2] with
      | Some y, Some m, Some d =>
          if Ascii.eqb sep1 "-" && Ascii.eqb sep2 "-" &&
             (1 <=? m) && (m <=? 12) && (1 <=? d) && (d <=? days_in_month y m)
          then JS.Num (days_from_civil y m d * msPerDay)
          else JS.NaN
      | _, _, _ => JS.NaN
      end
  | _ => JS.NaN
  end.

Definition format (t : Z) : string :=
  let '(y, m, d) := civil_from_days (t / msPerDay) in
  JS.toString m +:+ "/" +:+ JS.toString d +:+ "/" +:+ JS.toString y.

Definition compare (s t : string) : Z :=
  match String.compare s t with
  | Lt => -1
  | Eq => 0
  | Gt => 1
  end.

End RefHost.

#[export] Instance refHost : Host := {|
  toLowerCase := RefHost.lower;
  Date_parse := RefHost.parse;
  localeCompare := RefHost.compare;
  toLocaleDateString := RefHost.format;
  nullRead p := "Cannot read properties of null (reading '" +:+ p +:+ "')";
  nullWrite p := "Cannot set properties of null (setting '" +:+ p +:+ "')";
  toLowerCase_empty := eq_refl
|}.

(** ** Sample data *)

Module Sample.

Definition blog (t c : string) (rt : option Z) (d : option string) : Blog :=
  {| title := Some t; content := Some "Lorem ipsum"; category := Some c;
     author := None; image := None; reading_time := rt; published_date := d |}.

Definition ai : Blog := blog "AI in 2024" "Gadgets" (Some 7) (Some "2024-03-01").
Definition garden : Blog := blog "Gardening Tips" "Writing" (Some 0) (Some "2023-11-20").
Definition seed : Blog := blog "Seed funding" "Startups" None (Some "2024-01-15").
Definition undated : Blog := blog "Draft" "Writing" (Some 3) (Some "soon").

Definition el (v : string) : Element := {| hidden := false; text := EmptyString; value := v |}.
Definition spinner : Element := {| hidden := true; text := "Loading..."; value := EmptyString |}.
Definition errorBox : Element := {| hidden := true; text := EmptyString; value := EmptyString |}.

(** A page that has all six elements, freshly constructed. *)
Definition fresh_page : BlogList :=
  constructor (Some (el EmptyString)) (Some spinner) (Some errorBox)
              (Some (el EmptyString)) (Some (el EmptyString)) (Some (el EmptyString)).

(** The same component after a successful load of three records. *)
Definition loaded : BlogList :=
  state_of (init (Response 200 (JsonArray [ai; garden; seed])) fresh_page).

(** The loaded component after the user has typed a search term and
    picked a category, before any handler has run. *)
Definition typed : BlogList :=
  set_filterSelect (Some (el "Gadgets")) (set_searchInput (Some (el "AI")) loaded).

End Sample.

(** ** The page around the component: main.js and the drag-and-drop class

    The handlers that [main.js] installs and the [DragDrop] class work on
    class lists, attributes and the element tree.  An element's class
    list is the ordered set of its class names. *)

Module ClassList.

Definition contains (c : string) (l : list string) : bool :=
  existsb (String.eqb c) l.

(** [classList.add(c)]: appended unless present. *)
Definition add (c : string) (l : list string) : list string :=
  if contains c l then l else l ++ [c].

(** [classList.remove(c)]. *)
Definition remove (c : string) (l : list string) : list string :=
  List.filter (fun x => negb (String.eqb x c)) l.

(** [classList.toggle(c)]. *)
Definition toggle (c : string) (l : list string) : list string :=
  if contains c l then remove c l else add c l.

End ClassList.

(** *** The mobile menu ([main.js]): the [aria-expanded] attribute of
    the toggle button, absent or a string, and the class list of the
    navigation list. *)

Module Menu.

Record State : Type := {
  ariaExpanded : option string;
  navClasses : list string
}.

(** The click listener of the toggle button. *)
Definition clickToggle (m : State) : State :=
  let isExpanded :=
    match ariaExpanded m with
    | Some v => String.eqb v "true"
    | None => false
    end in
  {| navClasses := ClassList.toggle "is-open" (navClasses m);
     ariaExpanded := Some (if negb isExpanded then "true" else "false") |}.

(** The click listener of a navigation link, at window width
    [innerWidth]. *)
Definition clickLink (innerWidth : Z) (m : State) : State :=
  if innerWidth <=? 768 then
    {| navClasses := ClassList.remove "is-open" (navClasses m);
       ariaExpanded := Some "false" |}
  else m.

Inductive click : Type :=
| OnToggle
| OnLink (innerWidth : Z).

Definition onClick (c : click) (m : State) : State :=
  match c with
  | OnToggle => clickToggle m
  | OnLink w => clickLink w m
  end.

Definition clicks (cs : list click) (m : State) : State :=
  fold_left (fun m' c => onClick c m') cs m.

(** The class and the attribute agree on whether the menu is open. *)
Definition in_sync (m : State) : Prop :=
  ClassList.contains "is-open" (navClasses m) = true <->
  ariaExpanded m = Some "true".

End Menu.

(** *** The navigation highlight ([main.js]): the intersection
    observer's callback.  [doc] lists, in document order, the elements
    the callback can reach: the anchors and the members of [navLinks];
    section ids are taken not to contain characters that need escaping
    inside the quoted attribute selector. *)

Module Nav.

Record Link : Type := {
  isAnchor : bool;
  href : option string;
  navTab : bool;
  classes : list string
}.

Record Entry : Type := {
  targetId : string;
  isIntersecting : bool
}.

Definition with_classes (cl : list string) (l : Link) : Link :=
  {| isAnchor := isAnchor l; href := href l; navTab := navTab l; classes := cl |}.

(** [l] matches the selector [a[href="target"]]. *)
Definition matches (target : string) (l : Link) : bool :=
  isAnchor l &&
  match href l with
  | Some h => String.eqb h target
  | None => false
  end.

(** [document.querySelector(`a[href="${target}"]`)]: the position of the
    first match. *)
Fixpoint querySelector (target : string) (doc : list Link) : option nat :=
  match doc with
  | [] => None
  | l :: rest =>
      if matches target l then Some 0%nat
      else S <$> querySelector target rest
  end.

(** [navLinks.forEach(link => link.classList.remove('active'))] *)
Definition deactivate (l : Link) : Link :=
  if navTab l then with_classes (ClassList.remove "active" (classes l)) l else l.

(** [correspondingLink.classList.add('active')] *)
Definition activate (l : Link) : Link :=
  with_classes (ClassList.add "active" (classes l)) l.

(** The body of [entries.forEach]. *)
Definition onEntry (doc : list Link) (entry : Entry) : list Link :=
  let targetId := "#" +:+ targetId entry in
  match querySelector targetId doc with
  | Some i =>
      if isIntersecting entry then alter activate i (map deactivate doc)
      else doc
  | None => doc
  end.

(** The observer's callback. *)
Definition callback (entries : list Entry) (doc : list Link) : list Link :=
  fold_left onEntry entries doc.

(** The entry changes something: it intersects and has a link. *)
Definition effective (doc : list Link) (entry : Entry) : bool :=
  isIntersecting entry &&
  match querySelector ("#" +:+ targetId entry) doc with
  | Some _ => true
  | None => false
  end.

Definition active (l : Link) : bool := ClassList.contains "active" (classes l).

End Nav.

(** *** The element tree and the [DragDrop] class

    An element has an identity ([nid], which no other element of the
    tree shares), an [id] attribute (empty when absent), a class list
    and children. *)

Module Dom.

#[warnings="-register-all"]
Inductive Node : Type :=
| El (nid : nat) (id : string) (classes : list string) (children : list Node).

Definition nid_of (n : Node) : nat := let 'El k _ _ _ := n in k.
Definition id_of (n : Node) : string := let 'El _ i _ _ := n in i.
Definition classes_of (n : Node) : list string := let 'El _ _ cl _ := n in cl.
Definition children_of (n : Node) : list Node := let 'El _ _ _ ch := n in ch.

(** The first result of [f] along a list. *)
Definition first_some {A B} (f : A -> option B) : list A -> option B :=
  fix go (l : list A) : option B :=
    match l with
    | [] => None
    | x :: rest =>
        match f x with
        | Some y => Some y
        | None => go rest
        end
    end.

(** The results of [f] along a list, where it has one. *)
Definition keep_map {A B} (f : A -> option B) : list A -> list B :=
  fix go (l : list A) : list B :=
    match l with
    | [] => []
    | x :: rest =>
        match f x with
        | Some y => y :: go rest
        | None => go rest
        end
    end.

(** The identities of the elements of a tree, in tree order. *)
Fixpoint nids (n : Node) : list nat :=
  match n with
  | El k _ _ ch => k :: flat_map nids ch
  end.

(** The elements of a tree, each with its subtree, in tree order. *)
Fixpoint subtrees (n : Node) : list Node :=
  match n with
  | El _ _ _ ch => n :: flat_map subtrees ch
  end.

(** The element with identity [k], with its subtree. *)
Fixpoint find (k : nat) (n : Node) : option Node :=
  match n with
  | El k' _ _ ch => if Nat.eqb k' k then Some n else first_some (find k) ch
  end.

(** The first element in tree order whose id is [idv]. *)
Fixpoint byId (idv : string) (n : Node) : option Node :=
  match n with
  | El _ i _ ch => if String.eqb i idv then Some n else first_some (byId idv) ch
  end.

(** [document.getElementById(idv)]: no element has the empty id. *)
Definition getElementById (idv : string) (doc : Node) : option Node :=
  if JS.truthy idv then byId idv doc else None.

(** The tree with the class list of element [k] changed by [f]. *)
Fixpoint alter_classes (f : list string -> list string) (k : nat) (n : Node) : Node :=
  match n with
  | El k' i cl ch =>
      El k' i (if Nat.eqb k' k then f cl else cl) (map (alter_classes f k) ch)
  end.

(** The tree without the element [k] and its subtree, below the root. *)
Fixpoint prune (k : nat) (n : Node) : Node :=
  match n with
  | El k' i cl ch =>
      El k' i cl
         (keep_map (fun c => if Nat.eqb (nid_of c) k then None else Some (prune k c)) ch)
  end.

(** The tree with [sub] added as the last child of element [p]. *)
Fixpoint graft (p : nat) (sub : Node) (n : Node) : Node :=
  match n with
  | El k' i cl ch =>
      El k' i cl (map (graft p sub) ch ++ (if Nat.eqb k' p then [sub] else []))
  end.

(** How a handler ends: it returns, or an exception of the given name
    leaves it. *)
Inductive Ran (S : Type) : Type :=
| Returned (s : S)
| Threw (error : string) (s : S).
Arguments Returned {S} s.
Arguments Threw {S} error s.

(** [parent.appendChild(child)]: refused when [parent] is [child] or
    lies inside it; otherwise [child] leaves the place it has and becomes
    the last child of [parent]. *)
Definition appendChild (parent : nat) (child : Node) (doc : Node) : Ran Node :=
  if existsb (Nat.eqb parent) (nids child) then Threw "HierarchyRequestError" doc
  else Returned (graft parent child (prune (nid_of child) doc)).

(** The fields of a [DragDrop] instance that its handlers use, with the
    document they act on. *)
Record DragDrop : Type := {
  document : Node;
  currentDragItem : option nat
}.

Definition with_document (d : Node) (st : DragDrop) : DragDrop :=
  {| document := d; currentDragItem := currentDragItem st |}.

(** [_handleDragStart], for the item [target] the listener is on: the
    new state and the data stored under [text/plain].  The class
    [dragging] is added later, by [dragTimer]. *)
Definition handleDragStart (target : nat) (st : DragDrop) : DragDrop * string :=
  ({| document := document st; currentDragItem := Some target |},
   match find target (document st) with
   | Some n => id_of n
   | None => EmptyString
   end).

(** The function [_handleDragStart] passes to [setTimeout]. *)
Definition dragTimer (st : DragDrop) : Ran DragDrop :=
  match currentDragItem st with
  | Some k =>
      Returned (with_document
                  (alter_classes (ClassList.add "dragging") k (document st)) st)
  | None => Threw "TypeError" st
  end.

(** [_handleDragEnd] *)
Definition handleDragEnd (st : DragDrop) : DragDrop :=
  match currentDragItem st with
  | Some k =>
      {| document := alter_classes (ClassList.remove "dragging") k (document st);
         currentDragItem := None |}
  | None => st
  end.

(** [_handleDragEnter] and [_handleDragLeave], for the zone the listener
    is on. *)
Definition handleDragEnter (zone : nat) (st : DragDrop) : DragDrop :=
  with_document (alter_classes (ClassList.add "drag-over") zone (document st)) st.

Definition handleDragLeave (zone : nat) (st : DragDrop) : DragDrop :=
  with_document (alter_classes (ClassList.remove "drag-over") zone (document st)) st.

(** [_handleDrop], for the zone the listener is on and the data the drag
    carries under [text/plain]. *)
Definition handleDrop (zone : nat) (data : string) (st : DragDrop) : Ran DragDrop :=
  let doc := alter_classes (ClassList.remove "drag-over") zone (document st) in
  match getElementById data doc with
  | Some draggedItem =>
      match appendChild zone draggedItem doc with
      | Returned doc' => Returned (with_document doc' st)
      | Threw error doc' => Threw error (with_document doc' st)
      end
  | None => Returned (with_document doc st)
  end.

(** Enter and leave events on a zone. *)
Inductive hover : Type := Enter | Leave.

Definition onHover (zone : nat) (st : DragDrop) (h : hover) : DragDrop :=
  match h with
  | Enter => handleDragEnter zone st
  | Leave => handleDragLeave zone st
  end.

Definition hovers (zone : nat) (hs : list hover) (st : DragDrop) : DragDrop :=
  fold_left (onHover zone) hs st.

(** The class list of element [k]. *)
Definition classes_at (k : nat) (doc : Node) : option (list string) :=
  classes_of <$> find k doc.

(** No two elements of the tree share an identity. *)
Definition well_formed (doc : Node) : Prop := NoDup (nids doc).

End Dom.

(** ** A sample page *)

Module Page.

Definition closedMenu : Menu.State :=
  {| Menu.ariaExpanded := Some "false"; Menu.navClasses := ["nav-list"] |}.

Definition dragTab : Nav.Link :=
  {| Nav.isAnchor := true; Nav.href := Some "#drag-section"; Nav.navTab := true;
     Nav.classes := ["nav-tab"; "active"] |}.
Definition listTab : Nav.Link :=
  {| Nav.isAnchor := true; Nav.href := Some "#list-section"; Nav.navTab := true;
     Nav.classes := ["nav-tab"] |}.
Definition links : list Nav.Link := [dragTab; listTab].

Definition entering (id : string) : Nav.Entry :=
  {| Nav.targetId := id; Nav.isIntersecting := true |}.
Definition leaving (id : string) : Nav.Entry :=
  {| Nav.targetId := id; Nav.isIntersecting := false |}.

Definition item1 : Dom.Node := Dom.El 2 "item-1" ["draggable-item"] [].
Definition item2 : Dom.Node := Dom.El 3 "item-2" ["draggable-item"] [].
Definition unnamed : Dom.Node := Dom.El 6 EmptyString ["draggable-item"] [].
Definition zoneB : Dom.Node := Dom.El 5 "zone-b" ["drop-zone"; "drag-over"] [unnamed].

(** A container with a list of two items and two drop zones, the second
    highlighted and holding an item without an id. *)
Definition body : Dom.Node :=
  Dom.El 0 "drag-drop" ["drag-drop-container"]
    [Dom.El 1 "drag-list" [] [item1; item2];
     Dom.El 4 "zone-a" ["drop-zone"] [];
     zoneB].

Definition dragDrop : Dom.DragDrop :=
  {| Dom.document := body; Dom.currentDragItem := None |}.

End Page.

(** ** Vocabulary of the statements *)

(** [t] occurs in [s] as a substring. *)
Definition substring_of (t s : string) : Prop :=
  exists pre suf, s = pre +:+ t +:+ suf.

(** The title a record is searched by: the empty string when absent. *)
Definition title_of (blog : Blog) : string := JS.or_str (title blog) EmptyString.


(** On the array [l], the comparator is the difference of the key. *)
Definition by_key {A} (comparefn : A -> A -> JS.number) (key : A -> Z)
    (l : list A) : Prop :=
  forall x y, In x l -> In y l -> JS.SortCompare comparefn x y = key x - key y.


(** The loading indicator, forgetting only whether it is hidden. *)
Definition li_shape (s : BlogList) : option Element :=
  with_hidden true <$> loadingIndicator s.

(** An observation of the state that does not depend on what the methods
    other than [onControlChange] write: the store, the two array
    references, the list and error containers, the listener flag, and the
    [hidden] class of the loading indicator. *)
Class Untouched {X} (f : BlogList -> X) : Prop := {
  untouched_heap h s : f (set_heap h s) = f s;
  untouched_items l s : f (set_items l s) = f s;
  untouched_filteredItems l s : f (set_filteredItems l s) = f s;
  untouched_listContainer x s : f (set_listContainer x s) = f s;
  untouched_errorContainer x s : f (set_errorContainer x s) = f s;
  untouched_listening b s : f (set_listening b s) = f s;
  untouched_hidden b s :
    f (set_loadingIndicator (with_hidden b <$> loadingIndicator s) s) = f s
}.

(** Hoare triples for methods: from a state satisfying [P], [m] either
    returns [a] in a state satisfying [Q a] or throws in a state
    satisfying [E]. *)
Definition hoare {A} (P : BlogList -> Prop) (m : M A)
    (Q : A -> BlogList -> Prop) (E : BlogList -> Prop) : Prop :=
  forall s, P s ->
    match m s with
    | Normal a s' => Q a s'
    | Throw _ s' => E s'
    end.

(** [m] leaves the observation [f] of the state as it was, however it
    completes. *)
Definition preserves {X A} (f : BlogList -> X) (m : M A) : Prop :=
  forall s, f (state_of (m s)) = f s.

(** The store [h'] has every array of [h], with the contents it had. *)
Definition store_extends (h h' : gmap loc (list Blog)) : Prop :=
  forall l, l ∈ dom h -> h' !! l = h !! l.

(** [s] is [s0] after a recomputation of the view: only the store, which
    has grown, and the reference [filteredItems] may differ. *)
Definition recomputed (s0 s : BlogList) : Prop :=
  exists h' fi,
    s = set_filteredItems fi (set_heap h' s0) /\ store_extends (heap s0) h'.

(** [s] is [s0] in the middle of [applyFiltersAndSorting]: [workingList]
    is an array that [s0] did not have, and it holds [xs]. *)
Definition working (s0 : BlogList) (workingList : loc) (xs : list Blog)
    (s : BlogList) : Prop :=
  exists h',
    s = set_heap h' s0 /\ store_extends (heap s0) h' /\
    (workingList ∉ dom (heap s0)) /\ h' !! workingList = Some xs.

(** The state [applyFiltersAndSorting] returns in: the view is in an
    array the component did not have before, the list container shows the
    slice of the current page, and nothing else has changed. *)
Definition recomputed_view `{Host} (s0 s : BlogList) : Prop :=
  exists si fs ss lc wl h',
    searchInput s0 = Some si /\ filterSelect s0 = Some fs /\
    sortSelect s0 = Some ss /\ listContainer s0 = Some lc /\
    store_extends (heap s0) h' /\ (wl ∉ dom (heap s0)) /\
    let view := deriveView (contents (heap s0) (items s0))
                           (value si) (value fs) (value ss) in
    h' !! wl = Some view /\
    s = set_listContainer
          (Some (with_text (renderHTML (renderSlice view (page s0) (perPage s0))) lc))
          (set_filteredItems wl (set_heap h' s0)).

(** One of the elements [applyFiltersAndSorting] and [render] use
    without a null check is missing from the page. *)
Definition missing_element (s0 : BlogList) : Prop :=
  searchInput s0 = None \/ filterSelect s0 = None \/
  sortSelect s0 = None \/ listContainer s0 = None.

(** No listener is installed and no debounce timer is pending. *)
Definition idle (s : BlogList) : Prop :=
  listening s = false /\ searchTimer s = false.

(** Everything of the state but the values of the three controls. *)
Definition apart_from_controls (s : BlogList) : BlogList :=
  set_searchInput None (set_filterSelect None (set_sortSelect None s)).

(** The page counter is 1 and the page size is 10. *)
Definition first_page_of_ten (s : BlogList) : Prop := page s = 1 /\ perPage s = 10.

(** The category a record is sorted by: the empty string when absent. *)
Definition category_of (blog : Blog) : string :=
  JS.or_str (category blog) EmptyString.

(** On the array [l], "not after" under the comparator is total and
    transitive. *)
Definition consistent {A} (comparefn : A -> A -> JS.number) (l : list A) : Prop :=
  (forall x y, In x l -> In y l ->
     JS.SortCompare comparefn x y <= 0 \/ JS.SortCompare comparefn y x <= 0) /\
  (forall x y z, In x l -> In y l -> In z l ->
     JS.SortCompare comparefn x y <= 0 -> JS.SortCompare comparefn y z <= 0 ->
     JS.SortCompare comparefn x z <= 0).

(** The component is loaded with [data] and its display is current: the
    listeners are installed, the master collection is [data], the list
    area shows the first ten records of the view, and the view is the one
    the controls' values select unless a debounce timer is pending. *)
Definition display_current `{Host} (data : list Blog) (s : BlogList) : Prop :=
  listening s = true /\ perPage s = 10 /\
  heap s !! items s = Some data /\
  exists si fs ss lc,
    searchInput s = Some si /\ filterSelect s = Some fs /\
    sortSelect s = Some ss /\ listContainer s = Some lc /\
    let view := contents (heap s) (filteredItems s) in
    text lc = renderHTML (firstn 10 view) /\
    (searchTimer s = false ->
     view = deriveView data (value si) (value fs) (value ss)).

(** The state the component is in before the request settles, up to the
    values of the controls. *)
Definition unsettled (s0 : BlogList) (ph : phase) : BlogList :=
  match ph with
  | Created => s0
  | _ => state_of (showLoading s0)
  end.

(** * Properties *)

(** ** Strings *)

Lemma startsWith_nil (s : string) : JS.startsWith s EmptyString = true.
Proof. now destruct s. Qed.

Lemma startsWith_spec (s t : string) :
  JS.startsWith s t = true <-> exists suf, s = t +:+ suf.
Proof.
  revert s. induction t as [|c t IH]; intros s.
  - rewrite startsWith_nil. split; [intros _; now exists s | reflexivity].
  - destruct s as [|d s]; simpl.
    + split; [discriminate | intros [suf H]; discriminate].
    + destruct (Ascii.eqb_spec c d) as [->|Hne].
      * rewrite IH. split; intros [suf H]; exists suf.
        -- change (String d s = String d (t +:+ suf)). now rewrite H.
        -- change (String d s = String d (t +:+ suf)) in H. now injection H.
      * split; [discriminate | intros [suf H]].
        change (String d s = String c (t +:+ suf)) in H. congruence.
Qed.

Lemma includes_unfold (s t : string) :
  JS.includes s t =
  if JS.startsWith s t then true
  else match s with
       | EmptyString => false
       | String _ s' => JS.includes s' t
       end.
Proof. now destruct s. Qed.

Lemma includes_spec (s t : string) :
  JS.includes s t = true <-> substring_of t s.
Proof.
  unfold substring_of. induction s as [|d s IH]; rewrite includes_unfold.
  - destruct (JS.startsWith EmptyString t) eqn:Hs.
    + apply startsWith_spec in Hs as [suf Hs].
      split; [intros _; now exists EmptyString, suf | reflexivity].
    + split; [discriminate|]. intros ([|x pre] & suf & H).
      * assert (JS.startsWith EmptyString t = true) as Hs'
          by (apply startsWith_spec; now exists suf).
        congruence.
      * discriminate.
  - destruct (JS.startsWith (String d s) t) eqn:Hs.
    + apply startsWith_spec in Hs as [suf Hs].
      split; [intros _; now exists EmptyString, suf | reflexivity].
    + rewrite IH. split.
      * intros (pre & suf & H). exists (String d pre), suf.
        change (String d s = String d (pre +:+ t +:+ suf)). now rewrite H.
      * intros ([|x pre] & suf & H).
        -- assert (JS.startsWith (String d s) t = true) as Hs'
             by (apply startsWith_spec; now exists suf).
           congruence.
        -- change (String d s = String x (pre +:+ t +:+ suf)) in H.
           injection H as _ H. now exists pre, suf.
Qed.

Lemma includes_nil (s : string) : JS.includes s EmptyString = true.
Proof. apply includes_spec. exists EmptyString, s. reflexivity. Qed.

Lemma truthy_false (s : string) : JS.truthy s = false <-> s = EmptyString.
Proof. destruct s; simpl; split; congruence. Qed.

(** ** [Array.prototype.slice] from 0 *)

Lemma slice0_nonneg {A} (xs : list A) (e : Z) :
  0 <= e -> JS.slice0 xs e = firstn (Z.to_nat e) xs.
Proof.
  intros He. unfold JS.slice0.
  destruct (Z.ltb_spec e 0) as [?|_]; [lia|].
  destruct (Z.le_ge_cases e (Z.of_nat (length xs))) as [Hle|Hge].
  - now rewrite Z.min_l.
  - rewrite Z.min_r by assumption. rewrite Nat2Z.id.
    rewrite firstn_all. symmetry. apply firstn_all2. lia.
Qed.

Lemma firstn_firstn_le {A} (xs : list A) (i j : nat) :
  (i <= j)%nat -> firstn i (firstn j xs) = firstn i xs.
Proof. intros Hij. rewrite firstn_firstn. now rewrite Nat.min_l. Qed.

(** ** The sort *)

Section SortFacts.
Context {A : Type} (comparefn : A -> A -> JS.number).

Lemma insert_perm (x : A) (l : list A) :
  Permutation (JS.insert comparefn x l) (x :: l).
Proof.
  induction l as [|y l IH]; simpl; [reflexivity|].
  destruct (JS.SortCompare comparefn x y <=? 0); [reflexivity|].
  rewrite IH. apply perm_swap.
Qed.

(** The sort rearranges, whatever the comparator. *)
Lemma sort_perm (l : list A) : Permutation (JS.sort comparefn l) l.
Proof.
  induction l as [|x l IH]; simpl; [reflexivity|].
  rewrite insert_perm. now constructor.
Qed.

(** An array in which no element is strictly greater than a later one is
    left as it is. *)
Lemma sort_ordered (l : list A) :
  ForallOrdPairs (fun x y => JS.SortCompare comparefn x y <= 0) l ->
  JS.sort comparefn l = l.
Proof.
  induction 1 as [|x l Hx _ IH]; simpl; [reflexivity|].
  rewrite IH. destruct l as [|y l]; [reflexivity|]. simpl.
  apply Forall_inv in Hx. now apply Z.leb_le in Hx as ->.
Qed.

(** When the comparator is the difference of a key on the elements of the
    array, the result is ordered by the key, and elements with equal keys
    keep their order. *)
Section ByKey.
Context (key : A -> Z).

Lemma insert_sorted (x : A) (l : list A) :
  by_key comparefn key (x :: l) ->
  StronglySorted (fun a b => key a <= key b) l ->
  StronglySorted (fun a b => key a <= key b) (JS.insert comparefn x l).
Proof.
  intros Hk Hs. induction Hs as [|y l Hs IH Hy]; simpl.
  - repeat constructor.
  - rewrite (Hk x y) by (simpl; auto).
    destruct (Z.leb_spec (key x - key y) 0) as [Hle|Hgt].
    + constructor; [now constructor|].
      constructor; [lia|].
      rewrite List.Forall_forall in Hy |- *. intros z Hz. specialize (Hy z Hz). lia.
    + constructor.
      * apply IH. intros a b Ha Hb. apply Hk; simpl in *; tauto.
      * apply List.Forall_forall. intros z Hz.
        apply (Permutation_in _ (insert_perm x l)) in Hz as [<-|Hz]; [lia|].
        rewrite List.Forall_forall in Hy. now apply Hy.
Qed.

Lemma sort_sorted (l : list A) :
  by_key comparefn key l -> StronglySorted (fun a b => key a <= key b) (JS.sort comparefn l).
Proof.
  induction l as [|x l IH]; intros Hk; simpl; [constructor|].
  apply insert_sorted.
  - intros a b Ha Hb.
    apply Hk; (eapply Permutation_in; [|eassumption]);
      constructor; apply sort_perm.
  - apply IH. intros a b Ha Hb. apply Hk; simpl; auto.
Qed.

Lemma insert_stable (x : A) (l : list A) (k : Z) :
  by_key comparefn key (x :: l) ->
  List.filter (fun a => key a =? k) (JS.insert comparefn x l) =
  List.filter (fun a => key a =? k) (x :: l).
Proof.
  intros Hk. induction l as [|y l IH]; [reflexivity|].
  cbn [JS.insert]. rewrite (Hk x y) by (simpl; auto).
  destruct (Z.leb_spec (key x - key y) 0) as [Hle|Hgt]; [reflexivity|].
  cbn [List.filter]. cbn [List.filter] in IH.
  rewrite IH by (intros a b Ha Hb; apply Hk; simpl in *; tauto).
  destruct (Z.eqb_spec (key x) k), (Z.eqb_spec (key y) k); try reflexivity. lia.
Qed.

Lemma sort_stable (l : list A) (k : Z) :
  by_key comparefn key l ->
  List.filter (fun a => key a =? k) (JS.sort comparefn l) =
  List.filter (fun a => key a =? k) l.
Proof.
  induction l as [|x l IH]; intros Hk; [reflexivity|].
  cbn [JS.sort]. rewrite insert_stable.
  - cbn [List.filter]. rewrite IH; [reflexivity|].
    intros a b Ha Hb. apply Hk; simpl; auto.
  - intros a b Ha Hb.
    apply Hk; (eapply Permutation_in; [|eassumption]);
      constructor; apply sort_perm.
Qed.

(** Two stable arrangements by key of the same elements are the same
    list, so the result does not depend on which stable sort is run. *)
Lemma stable_sorted_unique (v v' : list A) :
  StronglySorted (fun a b => key a <= key b) v ->
  StronglySorted (fun a b => key a <= key b) v' ->
  Permutation v v' ->
  (forall k, List.filter (fun a => key a =? k) v =
             List.filter (fun a => key a =? k) v') ->
  v = v'.
Proof.
  intros Hs. revert v'. induction Hs as [|x v Hs IH Hx]; intros v' Hs' Hp Hf.
  - now apply Permutation_nil in Hp.
  - destruct Hs' as [|y v' Hs' Hy].
    + symmetry in Hp. now apply Permutation_nil in Hp.
    + rewrite List.Forall_forall in Hx, Hy.
      assert (key x <= key y) as Hxy.
      { assert (In y (x :: v)) as [->|Hin]
          by (eapply Permutation_in; [symmetry; exact Hp | now left]);
          [lia | now apply Hx]. }
      assert (key y <= key x) as Hyx.
      { assert (In x (y :: v')) as [->|Hin]
          by (eapply Permutation_in; [exact Hp | now left]);
          [lia | now apply Hy]. }
      assert (x = y) as <-.
      { specialize (Hf (key x)). cbn [List.filter] in Hf.
        rewrite Z.eqb_refl in Hf.
        replace (key y =? key x) with true in Hf by (symmetry; apply Z.eqb_eq; lia).
        congruence. }
      f_equal. apply IH; [exact Hs' | now apply Permutation_cons_inv in Hp |].
      intros k. specialize (Hf k). cbn [List.filter] in Hf.
      destruct (key x =? k); congruence.
Qed.

Lemma sort_unique (l v : list A) :
  by_key comparefn key l ->
  Permutation v l ->
  StronglySorted (fun a b => key a <= key b) v ->
  (forall k, List.filter (fun a => key a =? k) v =
             List.filter (fun a => key a =? k) l) ->
  v = JS.sort comparefn l.
Proof.
  intros Hk Hp Hs Hf. apply stable_sorted_unique.
  - exact Hs.
  - now apply sort_sorted.
  - rewrite Hp. symmetry. apply sort_perm.
  - intros k. now rewrite Hf, sort_stable.
Qed.

End ByKey.
End SortFacts.

(** ** The query engine *)

Section EngineFacts.
Context `{host : Host}.

Lemma or_str_value (v : string) : JS.or_str (Some v) EmptyString = v.
Proof. now destruct v. Qed.

Lemma filter_true {A} (f : A -> bool) (l : list A) :
  (forall x, In x l -> f x = true) -> List.filter f l = l.
Proof.
  induction l as [|x l IH]; intros Hf; [reflexivity|]. simpl.
  rewrite (Hf x) by (simpl; auto). f_equal. apply IH. intros y Hy. apply Hf. simpl; auto.
Qed.

Lemma searchCallback_spec (searchTerm : string) (blog : Blog) :
  searchCallback searchTerm blog = true <->
  substring_of searchTerm (toLowerCase (title_of blog)).
Proof. unfold searchCallback, title_of. apply includes_spec. Qed.

Lemma searchStep_filter (v : string) (l : list Blog) :
  searchStep v l = List.filter (searchCallback (toLowerCase v)) l.
Proof.
  unfold searchStep. rewrite or_str_value.
  destruct (JS.truthy (toLowerCase v)) eqn:Ht; [reflexivity|].
  apply truthy_false in Ht. rewrite Ht. symmetry. apply filter_true.
  intros blog _. unfold searchCallback. apply includes_nil.
Qed.

Lemma categoryCallback_spec (c : string) (blog : Blog) :
  categoryCallback c blog = bool_decide (category blog = Some c).
Proof.
  unfold categoryCallback. destruct (category blog) as [c'|].
  - destruct (String.eqb_spec c' c) as [->|Hne].
    + now rewrite bool_decide_eq_true_2.
    + rewrite bool_decide_eq_false_2; [reflexivity | congruence].
  - now rewrite bool_decide_eq_false_2.
Qed.

Lemma sortStep_perm (k : string) (l : list Blog) : Permutation (sortStep k l) l.
Proof. unfold sortStep. destruct (JS.truthy k); [apply sort_perm | reflexivity]. Qed.





End EngineFacts.

(** ** Claims about the query engine *)


(** The paginator. *)

(** C6.  The slice of page [n + 1] extends the slice of page [n]: the
    latter is the former cut to its own length. *)
Theorem next_page_extends_prefix (view : list Blog) (n p : Z) :
  0 <= n -> 0 <= p ->
  renderSlice view n p =
  firstn (length (renderSlice view n p)) (renderSlice view (n + 1) p).
Proof.
  intros Hn Hp. unfold renderSlice.
  rewrite !slice0_nonneg by nia.
  rewrite firstn_firstn_le.
  - now rewrite length_firstn, <- firstn_firstn, firstn_all.
  - rewrite length_firstn. apply Nat.le_trans with (Z.to_nat (n * p)); [lia|].
    apply Z2Nat.inj_le; nia.
Qed.

(** ** Reasoning about methods *)

Section MonadFacts.
Context {X : Type} (f : BlogList -> X).

Lemma preserves_ret {A} (a : A) : preserves f (mret a).
Proof. intros s. reflexivity. Qed.

Lemma preserves_throw {A} (e : exn) : preserves f (throw (A := A) e).
Proof. intros s. reflexivity. Qed.

Lemma preserves_gets {A} (g : BlogList -> A) : preserves f (gets g).
Proof. intros s. reflexivity. Qed.

Lemma preserves_modify (g : BlogList -> BlogList) :
  (forall s, f (g s) = f s) -> preserves f (modify g).
Proof. intros Hg s. apply Hg. Qed.

Lemma preserves_bind {A B} (m : M A) (k : A -> M B) :
  preserves f m -> (forall a, preserves f (k a)) -> preserves f (m ≫= k).
Proof.
  intros Hm Hk s. unfold mbind, M_bind. specialize (Hm s).
  destruct (m s) as [a s'|e s']; simpl in *; [|exact Hm].
  rewrite <- Hm. apply Hk.
Qed.

Lemma preserves_try_catch {A} (body : M A) (handler : exn -> M A) :
  preserves f body -> (forall e, preserves f (handler e)) ->
  preserves f (try_catch body handler).
Proof.
  intros Hb Hh s. unfold try_catch. specialize (Hb s).
  destruct (body s) as [a s'|e s']; simpl in *; [exact Hb|].
  rewrite <- Hb. apply Hh.
Qed.

Lemma preserves_try_finally {A} (body : M A) (final : M unit) :
  preserves f body -> preserves f final -> preserves f (try_finally body final).
Proof.
  intros Hb Hf s. unfold try_finally. specialize (Hb s).
  destruct (body s) as [a s'|e s']; simpl in *; specialize (Hf s');
    destruct (final s'); simpl in *; congruence.
Qed.

Lemma preserves_if {A} (b : bool) (m1 m2 : M A) :
  preserves f m1 -> preserves f m2 -> preserves f (if b then m1 else m2).
Proof. now destruct b. Qed.

End MonadFacts.

Lemma hoare_bind {A B} (P : BlogList -> Prop) (m : M A) (k : A -> M B)
    (R : A -> BlogList -> Prop) (Q : B -> BlogList -> Prop) (E : BlogList -> Prop) :
  hoare P m R E -> (forall a, hoare (R a) (k a) Q E) -> hoare P (m ≫= k) Q E.
Proof.
  intros Hm Hk s HP. unfold mbind, M_bind. specialize (Hm s HP).
  destruct (m s) as [a s'|e s']; [|exact Hm]. now apply Hk.
Qed.

Lemma hoare_ret {A} (P : BlogList -> Prop) (a : A)
    (Q : A -> BlogList -> Prop) (E : BlogList -> Prop) :
  (forall s, P s -> Q a s) -> hoare P (mret a) Q E.
Proof. intros H s HP. now apply H. Qed.

(** ** What the methods leave alone *)

Lemma page_untouched : Untouched page.
Proof. split; reflexivity. Qed.

Lemma perPage_untouched : Untouched perPage.
Proof. split; reflexivity. Qed.

Lemma li_shape_untouched : Untouched li_shape.
Proof.
  split; try reflexivity.
  intros b s. unfold li_shape. simpl. now destruct (loadingIndicator s).
Qed.

Section Untouched.
Context `{host : Host} {X : Type} (f : BlogList -> X) {Hf : Untouched f}.

Create HintDb pres discriminated.

(** Goes through a method's body: known methods first, then the
    control structure. *)
Ltac preserve :=
  repeat first
    [ solve [auto 1 with pres nocore]
    | apply preserves_ret
    | apply preserves_throw
    | apply preserves_gets
    | apply preserves_if
    | apply preserves_bind; [|intros ?]
    | apply preserves_try_catch; [|intros ?]
    | apply preserves_try_finally
    | apply preserves_modify; intros ?;
      first [ apply untouched_heap | apply untouched_items
            | apply untouched_filteredItems | apply untouched_errorContainer
            | apply untouched_listening | apply untouched_hidden ] ].

Lemma preserves_alloc xs : preserves f (alloc xs).
Proof. intros s. apply untouched_heap. Qed.
Local Hint Resolve preserves_alloc : pres.

Lemma preserves_read l : preserves f (read l).
Proof. apply preserves_gets. Qed.
Local Hint Resolve preserves_read : pres.

Lemma preserves_spread l : preserves f (spread l).
Proof. unfold spread. preserve. Qed.
Local Hint Resolve preserves_spread : pres.

Lemma preserves_Array_filter g l : preserves f (Array_filter g l).
Proof. unfold Array_filter. preserve. Qed.
Local Hint Resolve preserves_Array_filter : pres.

Lemma preserves_Array_sort c l : preserves f (Array_sort c l).
Proof. unfold Array_sort. preserve. Qed.
Local Hint Resolve preserves_Array_sort : pres.

Lemma preserves_get_value el : preserves f (get_value el).
Proof. intros s. unfold get_value. now destruct (el s). Qed.
Local Hint Resolve preserves_get_value : pres.

Lemma preserves_set_innerHTML html : preserves f (set_innerHTML html).
Proof.
  intros s. unfold set_innerHTML.
  destruct (listContainer s); [apply untouched_listContainer | reflexivity].
Qed.
Local Hint Resolve preserves_set_innerHTML : pres.

Lemma preserves_showLoading : preserves f showLoading.
Proof. unfold showLoading. preserve. Qed.
Local Hint Resolve preserves_showLoading : pres.

Lemma preserves_hideLoading : preserves f hideLoading.
Proof. unfold hideLoading. preserve. Qed.
Local Hint Resolve preserves_hideLoading : pres.

Lemma preserves_render : preserves f render.
Proof. unfold render. preserve. Qed.
Local Hint Resolve preserves_render : pres.

Lemma preserves_applyFiltersAndSorting : preserves f applyFiltersAndSorting.
Proof. unfold applyFiltersAndSorting. preserve. Qed.
Local Hint Resolve preserves_applyFiltersAndSorting : pres.

Lemma preserves_showError err : preserves f (showError err).
Proof. unfold showError. preserve. destruct a; preserve. Qed.
Local Hint Resolve preserves_showError : pres.

Lemma preserves_fetchData res : preserves f (fetchData res).
Proof.
  unfold fetchData. preserve. destruct res as [msg|status body]; preserve.
  destruct body; preserve.
Qed.
Local Hint Resolve preserves_fetchData : pres.

Lemma preserves_setupEventListeners : preserves f setupEventListeners.
Proof. unfold setupEventListeners. preserve. Qed.
Local Hint Resolve preserves_setupEventListeners : pres.

Lemma preserves_init_body res :
  preserves f
    (try_catch (fetchData res;; setupEventListeners;; applyFiltersAndSorting)
               (fun err => showError err)).
Proof. preserve. Qed.

Lemma preserves_init_resume res : preserves f (init_resume res).
Proof.
  unfold init_resume, try_catch_finally. apply preserves_try_finally;
    [apply preserves_init_body | apply preserves_hideLoading].
Qed.

End Untouched.

(** ** The recomputation of the view *)

Section Recompute.
Context `{host : Host}.

Lemma hoare_pure {A} (P : BlogList -> Prop) (phi : Prop) (m : M A)
    (Q : A -> BlogList -> Prop) (E : BlogList -> Prop) :
  (phi -> hoare P m Q E) -> hoare (fun s => P s /\ phi) m Q E.
Proof. intros Hm s [HP Hphi]. now apply Hm. Qed.

Lemma store_extends_dom (h h' : gmap loc (list Blog)) (l : loc) :
  store_extends h h' -> l ∈ dom h -> l ∈ dom h'.
Proof.
  intros Hext Hl. apply elem_of_dom. rewrite (Hext l Hl). now apply elem_of_dom.
Qed.

Lemma store_extends_fresh (h h' : gmap loc (list Blog)) :
  store_extends h h' -> fresh (dom h') ∉ dom h.
Proof.
  intros Hext Hin. apply (is_fresh (dom h')). eapply store_extends_dom; eauto.
Qed.

Lemma store_extends_alloc (h h' : gmap loc (list Blog)) (xs : list Blog) :
  store_extends h h' -> store_extends h (<[fresh (dom h') := xs]> h').
Proof.
  intros Hext l Hl. rewrite lookup_insert_ne; [now apply Hext|].
  intros <-. now apply (store_extends_fresh h h').
Qed.

Lemma store_extends_update (h h' : gmap loc (list Blog)) (l : loc) (xs : list Blog) :
  store_extends h h' -> l ∉ dom h -> store_extends h (<[l := xs]> h').
Proof.
  intros Hext Hl l' Hl'. rewrite lookup_insert_ne; [now apply Hext|].
  now intros <-.
Qed.

Lemma store_extends_refl (h : gmap loc (list Blog)) : store_extends h h.
Proof. now intros l _. Qed.

Lemma working_recomputed (s0 s : BlogList) (wl : loc) (xs : list Blog) :
  working s0 wl xs s -> recomputed s0 s.
Proof.
  intros (h' & -> & Hext & _). exists h', (filteredItems s0).
  split; [now destruct s0 | exact Hext].
Qed.

Lemma alloc_run (xs : list Blog) (s : BlogList) :
  alloc xs s =
  Normal (fresh (dom (heap s))) (set_heap (<[fresh (dom (heap s)) := xs]> (heap s)) s).
Proof. reflexivity. Qed.

Lemma Array_filter_run (g : Blog -> bool) (l : loc) (s : BlogList) :
  Array_filter g l s = alloc (List.filter g (contents (heap s) l)) s.
Proof. reflexivity. Qed.

Lemma Array_sort_run (c : Blog -> Blog -> JS.number) (l : loc) (s : BlogList) :
  Array_sort c l s =
  Normal tt (set_heap (<[l := JS.sort c (contents (heap s) l)]> (heap s)) s).
Proof. reflexivity. Qed.

Lemma contents_lookup (h : gmap loc (list Blog)) (l : loc) (xs : list Blog) :
  h !! l = Some xs -> contents h l = xs.
Proof. unfold contents. now intros ->. Qed.

Lemma heap_set_heap (h : gmap loc (list Blog)) (s : BlogList) :
  heap (set_heap h s) = h.
Proof. reflexivity. Qed.

Lemma set_heap_set_heap (h h' : gmap loc (list Blog)) (s : BlogList) :
  set_heap h (set_heap h' s) = set_heap h s.
Proof. reflexivity. Qed.

Lemma hoare_copy (s0 : BlogList) (E : BlogList -> Prop) :
  hoare (fun s => s = s0) (l ← gets items; spread l)
        (fun wl s => working s0 wl (contents (heap s0) (items s0)) s) E.
Proof.
  intros s ->. change ((l ← gets items; spread l) s0)
    with (alloc (contents (heap s0) (items s0)) s0).
  rewrite alloc_run.
  exists (<[fresh (dom (heap s0)) := contents (heap s0) (items s0)]> (heap s0)).
  split; [reflexivity|]. split; [|split].
  - apply store_extends_alloc, store_extends_refl.
  - apply is_fresh.
  - apply lookup_insert_eq.
Qed.

Lemma hoare_filter (s0 : BlogList) (wl : loc) (xs : list Blog)
    (g : Blog -> bool) (E : BlogList -> Prop) :
  hoare (working s0 wl xs) (Array_filter g wl)
        (fun wl' s => working s0 wl' (List.filter g xs) s) E.
Proof.
  intros s (h' & -> & Hext & Hwl & Hl).
  rewrite Array_filter_run, alloc_run, !heap_set_heap, set_heap_set_heap.
  rewrite (contents_lookup _ _ _ Hl).
  exists (<[fresh (dom h') := List.filter g xs]> h').
  split; [reflexivity|]. split; [|split].
  - now apply store_extends_alloc.
  - now apply store_extends_fresh.
  - apply lookup_insert_eq.
Qed.

Lemma hoare_sort (s0 : BlogList) (wl : loc) (xs : list Blog)
    (c : Blog -> Blog -> JS.number) (E : BlogList -> Prop) :
  hoare (working s0 wl xs) (Array_sort c wl)
        (fun _ s => working s0 wl (JS.sort c xs) s) E.
Proof.
  intros s (h' & -> & Hext & Hwl & Hl).
  rewrite Array_sort_run, !heap_set_heap, set_heap_set_heap.
  rewrite (contents_lookup _ _ _ Hl).
  exists (<[wl := JS.sort c xs]> h').
  split; [reflexivity|]. split; [|split].
  - now apply store_extends_update.
  - exact Hwl.
  - apply lookup_insert_eq.
Qed.

Lemma hoare_get_value (s0 : BlogList) (wl : loc) (xs : list Blog)
    (el : BlogList -> option Element) :
  (forall h, el (set_heap h s0) = el s0) ->
  (el s0 = None -> missing_element s0) ->
  hoare (working s0 wl xs) (get_value el)
        (fun v s => working s0 wl xs s /\ exists e, el s0 = Some e /\ v = value e)
        (fun s => recomputed s0 s /\ missing_element s0).
Proof.
  intros Hel Hnone s Hw. pose proof Hw as (h' & -> & _).
  unfold get_value. rewrite Hel. destruct (el s0) as [e|].
  - split; [exact Hw | now exists e].
  - split; [eapply working_recomputed, Hw | now apply Hnone].
Qed.

Lemma hoare_search (s0 : BlogList) (wl : loc) (xs : list Blog) (v : string)
    (E : BlogList -> Prop) :
  let searchTerm := toLowerCase (JS.or_str (Some v) EmptyString) in
  hoare (working s0 wl xs)
        (if JS.truthy searchTerm
         then Array_filter (searchCallback searchTerm) wl else mret wl)
        (fun wl' s => working s0 wl' (searchStep v xs) s) E.
Proof.
  intros searchTerm. unfold searchStep. fold searchTerm.
  destruct (JS.truthy searchTerm); [apply hoare_filter | now apply hoare_ret].
Qed.

Lemma hoare_category (s0 : BlogList) (wl : loc) (xs : list Blog) (c : string)
    (E : BlogList -> Prop) :
  hoare (working s0 wl xs)
        (if JS.truthy c then Array_filter (categoryCallback c) wl else mret wl)
        (fun wl' s => working s0 wl' (categoryStep c xs) s) E.
Proof.
  unfold categoryStep.
  destruct (JS.truthy c); [apply hoare_filter | now apply hoare_ret].
Qed.

Lemma hoare_sortStep (s0 : BlogList) (wl : loc) (xs : list Blog) (k : string)
    (E : BlogList -> Prop) :
  hoare (working s0 wl xs)
        (if JS.truthy k then Array_sort (comparator k) wl else mret tt)
        (fun _ s => working s0 wl (sortStep k xs) s) E.
Proof.
  unfold sortStep.
  destruct (JS.truthy k); [apply hoare_sort | now apply hoare_ret].
Qed.

Lemma render_run (s : BlogList) (lc : Element) :
  listContainer s = Some lc ->
  render s =
  Normal tt
    (set_listContainer
       (Some (with_text
                (renderHTML (renderSlice (contents (heap s) (filteredItems s))
                                         (page s) (perPage s))) lc)) s).
Proof.
  intros Hlc. unfold render, renderHTML, renderSlice, set_innerHTML, read, gets.
  unfold mbind, M_bind. rewrite Hlc. cbn [listContainer set_listContainer].
  now destruct (Z.of_nat (length (JS.slice0 _ _)) =? 0).
Qed.

Lemma render_null (s : BlogList) :
  listContainer s = None ->
  render s = Throw (Error (nullWrite "innerHTML")) s.
Proof.
  intros Hlc. unfold render, set_innerHTML, read, gets.
  unfold mbind, M_bind. now rewrite Hlc.
Qed.

Lemma hoare_finish (s0 : BlogList) (wl : loc) (si fs ss : Element) :
  searchInput s0 = Some si -> filterSelect s0 = Some fs ->
  sortSelect s0 = Some ss ->
  hoare (working s0 wl (deriveView (contents (heap s0) (items s0))
                                   (value si) (value fs) (value ss)))
        (modify (set_filteredItems wl);; render)
        (fun _ s => recomputed_view s0 s)
        (fun s => recomputed s0 s /\ missing_element s0).
Proof.
  intros Hsi Hfs Hss s (h' & -> & Hext & Hwl & Hl).
  change ((modify (set_filteredItems wl);; render) (set_heap h' s0))
    with (render (set_filteredItems wl (set_heap h' s0))).
  destruct (listContainer s0) as [lc|] eqn:Hlc.
  - rewrite (render_run _ lc) by exact Hlc.
    exists si, fs, ss, lc, wl, h'. repeat (split; [assumption|]).
    cbn [heap set_heap set_filteredItems filteredItems page perPage].
    rewrite (contents_lookup _ _ _ Hl). now split.
  - rewrite render_null by exact Hlc. split; [now exists h', wl|].
    unfold missing_element. tauto.
Qed.

Lemma applyFiltersAndSorting_hoare (s0 : BlogList) :
  hoare (fun s => s = s0) applyFiltersAndSorting
        (fun _ s => recomputed_view s0 s)
        (fun s => recomputed s0 s /\ missing_element s0).
Proof.
  unfold applyFiltersAndSorting.
  eapply hoare_bind; [apply hoare_copy|]. intros wl1.
  eapply hoare_bind;
    [apply hoare_get_value; [reflexivity | unfold missing_element; tauto]|].
  intros v. apply hoare_pure. intros (si & Hsi & ->).
  eapply hoare_bind; [apply hoare_search|]. intros wl2.
  eapply hoare_bind;
    [apply hoare_get_value; [reflexivity | unfold missing_element; tauto]|].
  intros c. apply hoare_pure. intros (fs & Hfs & ->).
  eapply hoare_bind; [apply hoare_category|]. intros wl3.
  eapply hoare_bind;
    [apply hoare_get_value; [reflexivity | unfold missing_element; tauto]|].
  intros k. apply hoare_pure. intros (ss & Hss & ->).
  eapply hoare_bind; [apply hoare_sortStep|]. intros [].
  now apply hoare_finish.
Qed.

(** With the three controls and the list container on the page, the
    method returns, and the view it stores and shows is [deriveView] of
    the master collection and the controls' values. *)
Lemma applyFiltersAndSorting_view (s : BlogList) (si fs ss lc : Element) :
  searchInput s = Some si -> filterSelect s = Some fs ->
  sortSelect s = Some ss -> listContainer s = Some lc ->
  let view := deriveView (contents (heap s) (items s))
                         (value si) (value fs) (value ss) in
  exists s',
    applyFiltersAndSorting s = Normal tt s' /\
    contents (heap s') (filteredItems s') = view /\
    listContainer s' =
      Some (with_text (renderHTML (renderSlice view (page s) (perPage s))) lc).
Proof.
  intros Hsi Hfs Hss Hlc view.
  pose proof (applyFiltersAndSorting_hoare s s eq_refl) as Hh.
  destruct (applyFiltersAndSorting s) as [[] s'|e s'].
  - exists s'. split; [reflexivity|].
    destruct Hh as (si' & fs' & ss' & lc' & wl & h' & Hsi' & Hfs' & Hss' & Hlc'
                    & _ & _ & Hl & ->).
    assert (si' = si) as -> by congruence. assert (fs' = fs) as -> by congruence.
    assert (ss' = ss) as -> by congruence. assert (lc' = lc) as -> by congruence.
    split; [|reflexivity]. now apply contents_lookup.
  - exfalso. destruct Hh as [_ Hm]. unfold missing_element in Hm.
    intuition congruence.
Qed.

(** However the method completes, the component still has its master
    collection: the same array with the same contents. *)
Lemma applyFiltersAndSorting_frame (s : BlogList) :
  let s' := state_of (applyFiltersAndSorting s) in
  items s' = items s /\ store_extends (heap s) (heap s').
Proof.
  pose proof (applyFiltersAndSorting_hoare s s eq_refl) as Hh.
  destruct (applyFiltersAndSorting s) as [[] s'|e s']; simpl.
  - destruct Hh as (si & fs & ss & lc & wl & h' & _ & _ & _ & _ & Hext & _ & _ & ->).
    now split.
  - destruct Hh as [(h' & fi & -> & Hext) _]. now split.
Qed.

End Recompute.

(** ** Loading and the page counter *)

Section Lifecycle.
Context `{host : Host}.

Lemma init_split (res : FetchResult) (s : BlogList) :
  init res s = init_resume res (state_of (showLoading s)).
Proof. reflexivity. Qed.

Lemma finally_hideLoading {A} (body : M A) (s : BlogList) :
  loadingIndicator (state_of (try_finally body hideLoading s)) =
  with_hidden true <$> loadingIndicator (state_of (body s)).
Proof. unfold try_finally. now destruct (body s). Qed.

Lemma init_resume_hides (res : FetchResult) (s : BlogList) :
  loadingIndicator (state_of (init_resume res s)) =
  with_hidden true <$> loadingIndicator s.
Proof.
  unfold init_resume, try_catch_finally. rewrite finally_hideLoading.
  apply (preserves_init_body li_shape (Hf := li_shape_untouched)).
Qed.

Lemma onControlChange_page (s : BlogList) :
  page (state_of (onControlChange s)) = 1.
Proof.
  change (onControlChange s) with (applyFiltersAndSorting (set_page 1 s)).
  now rewrite (preserves_applyFiltersAndSorting page (Hf := page_untouched)).
Qed.

Lemma onControlChange_perPage (s : BlogList) :
  perPage (state_of (onControlChange s)) = perPage s.
Proof.
  change (onControlChange s) with (applyFiltersAndSorting (set_page 1 s)).
  now rewrite (preserves_applyFiltersAndSorting perPage (Hf := perPage_untouched)).
Qed.

Lemma onControlChange_first_page (s : BlogList) :
  first_page_of_ten s -> first_page_of_ten (state_of (onControlChange s)).
Proof.
  intros [_ Hpp]. split; [apply onControlChange_page|].
  now rewrite onControlChange_perPage.
Qed.

Lemma handle_first_page (ev : event) (s : BlogList) :
  first_page_of_ten s -> first_page_of_ten (handle ev s).
Proof.
  intros Hp. destruct ev as [v|v|v|]; simpl.
  - destruct (sortSelect s); [|exact Hp]. simpl.
    destruct (listening s); [now apply onControlChange_first_page | exact Hp].
  - destruct (filterSelect s); [|exact Hp]. simpl.
    destruct (listening s); [now apply onControlChange_first_page | exact Hp].
  - destruct (searchInput s); [|exact Hp]. simpl.
    destruct (listening s); exact Hp.
  - destruct (searchTimer s); [now apply onControlChange_first_page | exact Hp].
Qed.

Lemma step_first_page (x y : phase * BlogList) :
  step x y -> first_page_of_ten x.2 -> first_page_of_ten y.2.
Proof.
  intros [s|s res|ph s ev] Hp; simpl in *.
  - exact Hp.
  - unfold first_page_of_ten.
    now rewrite (preserves_init_resume page (Hf := page_untouched)),
                (preserves_init_resume perPage (Hf := perPage_untouched)).
  - now apply handle_first_page.
Qed.

(** In every state the component reaches, it shows the first page, of
    ten records. *)
Lemma reachable_first_page (s : BlogList) : reachable s -> first_page_of_ten s.
Proof.
  intros (lc & li & ec & ss & fs & si & ph & Hr).
  assert (forall x y, rtc step x y -> first_page_of_ten x.2 -> first_page_of_ten y.2)
    as Hrtc.
  { induction 1 as [|x y z Hxy _ IH]; [auto|]. intros Hx.
    apply IH. now apply (step_first_page x y). }
  now apply (Hrtc _ _ Hr).
Qed.

Lemma onControlChange_view (s : BlogList) (si fs ss lc : Element) :
  searchInput s = Some si -> filterSelect s = Some fs ->
  sortSelect s = Some ss -> listContainer s = Some lc ->
  let view := deriveView (contents (heap s) (items s))
                         (value si) (value fs) (value ss) in
  exists s',
    onControlChange s = Normal tt s' /\
    contents (heap s') (filteredItems s') = view /\
    listContainer s' =
      Some (with_text (renderHTML (renderSlice view 1 (perPage s))) lc).
Proof.
  intros Hsi Hfs Hss Hlc.
  exact (applyFiltersAndSorting_view (set_page 1 s) si fs ss lc Hsi Hfs Hss Hlc).
Qed.

End Lifecycle.

(** C9.  [init] shows the loading indicator before the request is made,
    which is the state in which [init_resume] takes over once the request
    has settled; and however the request settles and whatever happens
    afterwards (success, a rejected request, a status outside 200-299, a
    body that is not a JSON array, an element missing from the page), the
    indicator is hidden when [init] is done. *)
Theorem loading_indicator_hidden_on_every_exit `{Host}
    (s : BlogList) (res : FetchResult) :
  loadingIndicator (state_of (showLoading s)) =
    with_hidden false <$> loadingIndicator s /\
  init res s = init_resume res (state_of (showLoading s)) /\
  loadingIndicator (state_of (init res s)) =
    with_hidden true <$> loadingIndicator s /\
  (forall s1, loadingIndicator (state_of (init_resume res s1)) =
              with_hidden true <$> loadingIndicator s1).
Proof.
  split; [reflexivity|]. split; [apply init_split|]. split.
  - rewrite init_split, init_resume_hides. simpl.
    now destruct (loadingIndicator s).
  - intros s1. apply init_resume_hides.
Qed.

(** C7.  The handler of every control change sets the page counter to 1
    and only then recomputes the view: the counter is 1 when the handler
    is done, and what the handler displays is the first page of the
    recomputed view, whatever the counter was before.  In every state the
    component can reach, before and after any event, the counter is 1. *)
Theorem page_reset_on_control_change `{Host} :
  (forall s, onControlChange s = applyFiltersAndSorting (set_page 1 s)) /\
  (forall s, page (state_of (onControlChange s)) = 1) /\
  (forall s si fs ss lc,
     searchInput s = Some si -> filterSelect s = Some fs ->
     sortSelect s = Some ss -> listContainer s = Some lc ->
     exists s',
       onControlChange s = Normal tt s' /\
       listContainer s' =
         Some (with_text
                 (renderHTML
                    (renderSlice (deriveView (contents (heap s) (items s))
                                             (value si) (value fs) (value ss))
                                 1 (perPage s))) lc)) /\
  (forall s ev, reachable s -> page s = 1 /\ page (handle ev s) = 1).
Proof.
  split; [reflexivity|]. split; [apply onControlChange_page|]. split.
  - intros s si fs ss lc Hsi Hfs Hss Hlc.
    destruct (onControlChange_view s si fs ss lc Hsi Hfs Hss Hlc) as (s' & Hrun & _ & Hlc').
    now exists s'.
  - intros s ev Hr. pose proof (reachable_first_page s Hr) as Hp.
    split; [apply Hp | now apply handle_first_page].
Qed.

(** C3.  The search step keeps a record if and only if its title,
    lower-cased, contains the lower-cased search term as a substring: the
    step is a filter (order and repetitions of the master collection are
    kept) by a test that holds exactly of those records, and the view
    [applyFiltersAndSorting] stores is the category and sort steps applied
    to the result of that filter.  With an empty search term the step
    returns the collection as it is. *)
Theorem search_keeps_iff_title_contains `{Host} (master : list Blog) (term : string) :
  (exists keep : Blog -> bool,
     (forall blog, keep blog = true <->
        substring_of (toLowerCase term) (toLowerCase (title_of blog))) /\
     searchStep term master = List.filter keep master /\
     forall s si fs ss lc,
       contents (heap s) (items s) = master ->
       searchInput s = Some si -> value si = term ->
       filterSelect s = Some fs -> sortSelect s = Some ss ->
       listContainer s = Some lc ->
       exists s',
         applyFiltersAndSorting s = Normal tt s' /\
         contents (heap s') (filteredItems s') =
           sortStep (value ss) (categoryStep (value fs) (List.filter keep master))) /\
  searchStep EmptyString master = master.
Proof.
  split.
  - exists (searchCallback (toLowerCase term)). split; [|split].
    + intros blog. apply searchCallback_spec.
    + apply searchStep_filter.
    + intros s si fs ss lc <- Hsi <- Hfs Hss Hlc.
      destruct (applyFiltersAndSorting_view s si fs ss lc Hsi Hfs Hss Hlc)
        as (s' & Hrun & Hview & _).
      exists s'. split; [exact Hrun|]. rewrite Hview.
      unfold deriveView. now rewrite searchStep_filter.
  - unfold searchStep. rewrite or_str_value, toLowerCase_empty. reflexivity.
Qed.

(** C4.  The category step, which runs on the result of the search step,
    keeps a record if and only if the selected category is empty or the
    record's category is exactly the selected one, so an empty selection
    keeps every record; the view [applyFiltersAndSorting] stores is the
    sort step applied to the result of that filter. *)
Theorem category_keeps_iff_equal `{Host} (master : list Blog)
    (term categoryFilter : string) :
  let searched := searchStep term master in
  let kept :=
    List.filter (fun blog => bool_decide (categoryFilter = EmptyString \/
                                          category blog = Some categoryFilter))
                searched in
  categoryStep categoryFilter searched = kept /\
  categoryStep EmptyString searched = searched /\
  forall s si fs ss lc,
    contents (heap s) (items s) = master ->
    searchInput s = Some si -> value si = term ->
    filterSelect s = Some fs -> value fs = categoryFilter ->
    sortSelect s = Some ss -> listContainer s = Some lc ->
    exists s',
      applyFiltersAndSorting s = Normal tt s' /\
      contents (heap s') (filteredItems s') = sortStep (value ss) kept.
Proof.
  intros searched kept.
  assert (Hk : categoryStep categoryFilter searched = kept).
  { unfold categoryStep, kept. destruct categoryFilter as [|c cs]; cbn [JS.truthy].
    - symmetry. apply filter_true. intros blog _.
      apply bool_decide_eq_true_2. now left.
    - apply filter_ext. intros blog. rewrite categoryCallback_spec.
      apply bool_decide_ext. split; [now right | now intros [?|?]]. }
  split; [exact Hk|]. split; [reflexivity|].
  intros s si fs ss lc <- Hsi <- Hfs <- Hss Hlc.
  destruct (applyFiltersAndSorting_view s si fs ss lc Hsi Hfs Hss Hlc)
    as (s' & Hrun & Hview & _).
  exists s'. split; [exact Hrun|]. rewrite Hview.
  unfold deriveView. fold searched. now rewrite Hk.
Qed.

(** C8.  [applyFiltersAndSorting] does not mutate the master collection:
    whatever the controls hold and however the method completes,
    [this.items] is the same array afterwards and that array has the same
    elements in the same order; when the method returns, the array it has
    filtered, sorted in place and stored as the view is another array. *)
Theorem master_collection_not_mutated `{Host} (s : BlogList) :
  is_Some (heap s !! items s) ->
  let s' := state_of (applyFiltersAndSorting s) in
  items s' = items s /\
  heap s' !! items s' = heap s !! items s /\
  match applyFiltersAndSorting s with
  | Normal _ s'' => filteredItems s'' <> items s
  | Throw _ _ => True
  end.
Proof.
  intros Hm s'. apply elem_of_dom in Hm.
  destruct (applyFiltersAndSorting_frame s) as [Hi Hext]. fold s' in Hi, Hext.
  split; [exact Hi|]. split; [rewrite Hi; now apply Hext|].
  pose proof (applyFiltersAndSorting_hoare s s eq_refl) as Hh.
  destruct (applyFiltersAndSorting s) as [[] s''|e s'']; [|exact I].
  destruct Hh as (si & fs & ss & lc & wl & h' & _ & _ & _ & _ & _ & Hwl & _ & ->).
  cbn [filteredItems set_listContainer set_filteredItems]. congruence.
Qed.

(** C5.  For a page number [n >= 1] and a page size [p >= 0], the slice
    [render] displays is the first [n * p] records of the view, all of
    the view if it is shorter, so its length is [min (p * n) |view|]; and
    that slice is what [render] writes into the list container. *)
Theorem page_slice_is_cumulative_prefix `{Host} (view : list Blog) (n p : Z) :
  1 <= n -> 0 <= p ->
  renderSlice view n p = firstn (Z.to_nat (n * p)) view /\
  Z.of_nat (length (renderSlice view n p)) = Z.min (p * n) (Z.of_nat (length view)) /\
  forall s lc,
    listContainer s = Some lc -> page s = n -> perPage s = p ->
    contents (heap s) (filteredItems s) = view ->
    render s =
    Normal tt (set_listContainer
                 (Some (with_text (renderHTML (firstn (Z.to_nat (n * p)) view)) lc)) s).
Proof.
  intros Hn Hp.
  assert (Hs : renderSlice view n p = firstn (Z.to_nat (n * p)) view).
  { unfold renderSlice. apply slice0_nonneg. nia. }
  split; [exact Hs|]. split.
  - rewrite Hs, length_firstn. nia.
  - intros s lc Hlc <- <- <-. rewrite (render_run s lc Hlc). now rewrite Hs.
Qed.

(** C10.  A record whose reading time is present and equal to 0 is shown
    with the default: its label is "5 min read" and that is what its card
    contains; the comparator for [reading_time] still takes its key to be
    0, as the first or as the second argument. *)
Theorem zero_reading_time_shows_default `{Host} (item : Blog) :
  reading_time item = Some 0 ->
  readingTimeLabel item = "5 min read" /\
  substring_of
    ("<span class=" +:+ quoted "blog-reading-time" +:+ ">5 min read</span>")
    (card item) /\
  (forall other,
     comparator "reading_time" item other =
       JS.Num (0 - JS.or_num (reading_time other) 0)) /\
  (forall other,
     comparator "reading_time" other item =
       JS.Num (JS.or_num (reading_time other) 0 - 0)).
Proof.
  intros Hrt.
  assert (Hl : readingTimeLabel item = "5 min read").
  { unfold readingTimeLabel. now rewrite Hrt. }
  split; [exact Hl|]. split; [|split].
  - exists (cardHead item), (cardTail item).
    unfold card, readingTimeSpan. now rewrite Hl.
  - intros other. unfold comparator. simpl. now rewrite Hrt.
  - intros other. unfold comparator. simpl. now rewrite Hrt.
Qed.

(** C2, as the code has it.  When the response has status 500 and the
    page has an error container, the container is shown with the text
    "Error: Data loading failed: Failed to fetch blogs (Status: 500).
    Please check the console for details." ([fetchData] wraps the message
    before [init] reports it); the list area is cleared and the loading
    indicator is hidden. *)
Theorem status_500_error_surface `{Host} (s : BlogList) (body : Body) (ec : Element) :
  errorContainer s = Some ec ->
  let s' := state_of (init (Response 500 body) s) in
  errorContainer s' =
    Some {| hidden := false;
            text := "Error: Data loading failed: Failed to fetch blogs (Status: 500). Please check the console for details.";
            value := value ec |} /\
  listContainer s' = with_text EmptyString <$> listContainer s /\
  loadingIndicator s' = with_hidden true <$> loadingIndicator s.
Proof.
  intros Hec. destruct s as [lc li ec' ss fs si it fit pg pp h ls st].
  simpl in Hec. subst ec'.
  destruct lc, li; repeat split; reflexivity.
Qed.

(** ** The claims on concrete inputs *)



(** C2 fails as stated: the text shown for a status 500 is not the one
    without the "Data loading failed: " prefix. *)
Lemma status_500_message_has_prefix :
  text <$> errorContainer
             (state_of (init (Response 500 JsonOther) Sample.fresh_page)) <>
  Some "Error: Failed to fetch blogs (Status: 500). Please check the console for details.".
Proof. vm_compute. discriminate. Qed.

Lemma status_500_witness :
  errorContainer Sample.fresh_page = Some Sample.errorBox /\
  text <$> errorContainer
             (state_of (init (Response 500 JsonOther) Sample.fresh_page)) =
  Some "Error: Data loading failed: Failed to fetch blogs (Status: 500). Please check the console for details.".
Proof.
  split; [reflexivity|].
  rewrite (proj1 (status_500_error_surface Sample.fresh_page JsonOther
                    Sample.errorBox eq_refl)).
  reflexivity.
Defined.

Lemma search_witness :
  exists s',
    applyFiltersAndSorting Sample.typed = Normal tt s' /\
    contents (heap s') (filteredItems s') = [Sample.ai].
Proof.
  destruct (search_keeps_iff_title_contains
              [Sample.ai; Sample.garden; Sample.seed] "AI")
    as [(keep & _ & Hfilter & Hrun) _].
  destruct (Hrun Sample.typed (Sample.el "AI") (Sample.el "Gadgets")
              (Sample.el EmptyString) _
              eq_refl eq_refl eq_refl eq_refl eq_refl eq_refl)
    as (s' & Hs' & Hview).
  exists s'. split; [exact Hs'|]. rewrite Hview, <- Hfilter. reflexivity.
Defined.

Lemma category_witness :
  exists s',
    applyFiltersAndSorting Sample.typed = Normal tt s' /\
    contents (heap s') (filteredItems s') = [Sample.ai].
Proof.
  destruct (category_keeps_iff_equal
              [Sample.ai; Sample.garden; Sample.seed] "AI" "Gadgets")
    as (_ & _ & Hrun).
  destruct (Hrun Sample.typed (Sample.el "AI") (Sample.el "Gadgets")
              (Sample.el EmptyString) _
              eq_refl eq_refl eq_refl eq_refl eq_refl eq_refl eq_refl)
    as (s' & Hs' & Hview).
  exists s'. split; [exact Hs'|]. rewrite Hview. reflexivity.
Defined.

Lemma loaded_reachable : reachable Sample.loaded.
Proof.
  exists (Some (Sample.el EmptyString)), (Some Sample.spinner), (Some Sample.errorBox),
         (Some (Sample.el EmptyString)), (Some (Sample.el EmptyString)),
         (Some (Sample.el EmptyString)), Settled.
  eapply rtc_l; [apply step_init|].
  eapply rtc_l; [|apply rtc_refl].
  exact (step_settle _ (Response 200 (JsonArray [Sample.ai; Sample.garden; Sample.seed]))).
Qed.

Lemma page_reset_witness :
  reachable Sample.loaded /\
  page (handle (ChangeSort "date") Sample.loaded) = 1.
Proof.
  split; [exact loaded_reachable|].
  exact (proj2 (proj2 (proj2 (proj2 page_reset_on_control_change))
                  Sample.loaded (ChangeSort "date") loaded_reachable)).
Defined.

Lemma page_slice_witness :
  1 <= 2 /\ 0 <= 10 /\
  Z.of_nat (length (renderSlice (repeat Sample.ai 25) 2 10)) =
    Z.min (10 * 2) (Z.of_nat (length (repeat Sample.ai 25))).
Proof.
  split; [lia|]. split; [lia|].
  exact (proj1 (proj2 (page_slice_is_cumulative_prefix (repeat Sample.ai 25) 2 10
                         ltac:(lia) ltac:(lia)))).
Defined.

Lemma next_page_witness :
  0 <= 2 /\ 0 <= 10 /\
  renderSlice (repeat Sample.ai 25) 2 10 =
  firstn (length (renderSlice (repeat Sample.ai 25) 2 10))
         (renderSlice (repeat Sample.ai 25) (2 + 1) 10).
Proof.
  split; [lia|]. split; [lia|].
  apply (next_page_extends_prefix (repeat Sample.ai 25) 2 10); lia.
Defined.

Lemma master_collection_witness :
  is_Some (heap Sample.loaded !! items Sample.loaded) /\
  heap (state_of (applyFiltersAndSorting Sample.loaded))
    !! items (state_of (applyFiltersAndSorting Sample.loaded)) =
  heap Sample.loaded !! items Sample.loaded.
Proof.
  assert (Hm : is_Some (heap Sample.loaded !! items Sample.loaded)).
  { vm_compute. eexists. reflexivity. }
  split; [exact Hm|].
  exact (proj1 (proj2 (master_collection_not_mutated Sample.loaded Hm))).
Defined.

Lemma zero_reading_time_witness :
  reading_time Sample.garden = Some 0 /\
  readingTimeLabel Sample.garden = "5 min read".
Proof.
  split; [reflexivity|].
  exact (proj1 (zero_reading_time_shows_default Sample.garden eq_refl)).
Defined.

(** The scenarios of the specification. *)

Example search_is_case_insensitive :
  deriveView [Sample.ai; Sample.garden] "AI" EmptyString EmptyString = [Sample.ai] /\
  deriveView [Sample.ai; Sample.garden] "ai" EmptyString EmptyString = [Sample.ai].
Proof. split; vm_compute; reflexivity. Qed.

Example category_then_date :
  deriveView [Sample.garden; Sample.undated; Sample.ai; Sample.seed]
             EmptyString "Startups" "date" = [Sample.seed].
Proof. vm_compute. reflexivity. Qed.

Example reading_time_ascending :
  deriveView [Sample.ai; Sample.garden; Sample.undated; Sample.seed]
             EmptyString EmptyString "reading_time" =
  [Sample.garden; Sample.seed; Sample.undated; Sample.ai].
Proof. vm_compute. reflexivity. Qed.

Example load_more :
  length (renderSlice (repeat Sample.ai 25) 1 10) = 10%nat /\
  length (renderSlice (repeat Sample.ai 25) 2 10) = 20%nat /\
  length (renderSlice (repeat Sample.ai 25) 3 10) = 25%nat.
Proof. repeat split; vm_compute; reflexivity. Qed.

Example negative_end_counts_from_the_end :
  JS.slice0 [Sample.ai; Sample.garden; Sample.seed] (-1) = [Sample.ai; Sample.garden].
Proof. vm_compute. reflexivity. Qed.

Example loaded_shows_three_cards :
  text <$> listContainer Sample.loaded =
  Some (card Sample.ai +:+ card Sample.garden +:+ card Sample.seed) /\
  hidden <$> loadingIndicator Sample.loaded = Some true.
Proof. split; vm_compute; reflexivity. Qed.

(** * Further properties of the component *)

(** ** Loading *)

Section Loading.
Context `{host : Host}.

Lemma fetchData_failure (res : FetchResult) (cause : string) (s : BlogList) :
  failure_cause res = Some cause ->
  fetchData res s = Throw (Error ("Data loading failed: " +:+ cause)) s.
Proof.
  unfold failure_cause, fetchData, try_catch, throw.
  destruct res as [msg|status body].
  - now intros [= <-].
  - destruct (ok status); cbn [negb].
    + destruct body; intros [= <-]; reflexivity.
    + now intros [= <-].
Qed.

Lemma fetchData_success (status : Z) (data : list Blog) (s : BlogList) :
  ok status = true ->
  fetchData (Response status (JsonArray data)) s =
  Normal tt (set_items (fresh (dom (heap s)))
               (set_heap (<[fresh (dom (heap s)) := data]> (heap s)) s)).
Proof. intros Hok. unfold fetchData, try_catch. now rewrite Hok. Qed.

Lemma init_failure (res : FetchResult) (cause : string) (s : BlogList) :
  failure_cause res = Some cause ->
  init res s =
  try_finally (showError (Error ("Data loading failed: " +:+ cause))) hideLoading
              (state_of (showLoading s)).
Proof.
  intros Hc. unfold init, try_catch_finally, try_finally, try_catch.
  change ((showLoading;; fetchData res;; setupEventListeners;;
           applyFiltersAndSorting) s)
    with ((fetchData res;; setupEventListeners;; applyFiltersAndSorting)
            (state_of (showLoading s))).
  unfold mbind at 1, M_bind at 1.
  now rewrite (fetchData_failure res cause _ Hc).
Qed.

End Loading.

Section LoadingOutcomes.
Context `{host : Host}.

(** The state in which [init] recomputes the view after a successful
    load of [data]. *)
Lemma init_success (status : Z) (data : list Blog) (s : BlogList) :
  ok status = true ->
  init (Response status (JsonArray data)) s =
  try_finally (try_catch applyFiltersAndSorting (fun err => showError err))
              hideLoading
              (set_listening true
                 (set_items (fresh (dom (heap s)))
                    (set_heap (<[fresh (dom (heap s)) := data]> (heap s))
                       (state_of (showLoading s))))).
Proof.
  intros Hok. unfold init, try_catch_finally, try_finally, try_catch.
  change ((showLoading;; fetchData (Response status (JsonArray data));;
           setupEventListeners;; applyFiltersAndSorting) s)
    with ((fetchData (Response status (JsonArray data));; setupEventListeners;;
           applyFiltersAndSorting) (state_of (showLoading s))).
  unfold mbind at 1, M_bind at 1.
  now rewrite (fetchData_success status data _ Hok).
Qed.

End LoadingOutcomes.

(** X1.  Whatever makes the load fail (a rejected request, a status
    outside 200-299, a body that is not JSON or not an array), on a page
    with an error container and a list container [init] completes
    normally and changes three things only: the error container is shown
    with "Error: Data loading failed: <cause>. Please check the console
    for details.", the list area is cleared, and the loading indicator is
    hidden.  The master collection, the view and the page counter are
    what they were, and no listener is installed. *)
Theorem failed_load_is_reported `{Host} (res : FetchResult) (cause : string)
    (s : BlogList) (ec lc : Element) :
  failure_cause res = Some cause ->
  errorContainer s = Some ec -> listContainer s = Some lc ->
  init res s =
  Normal tt
    (set_loadingIndicator (with_hidden true <$> loadingIndicator s)
       (set_listContainer (Some (with_text EmptyString lc))
          (set_errorContainer
             (Some {| hidden := false;
                      text := errorText ("Data loading failed: " +:+ cause);
                      value := value ec |}) s))).
Proof.
  intros Hc Hec Hlc. rewrite (init_failure res cause s Hc).
  destruct s as [lc' li ec' ss fs si it fit pg pp h ls st].
  simpl in Hec, Hlc. subst lc' ec'. now destruct li.
Qed.

(** X2.  On a page without an error container a failed load is silent:
    [init] completes normally and the only change is that the loading
    indicator is hidden; in particular the list area is left as it was. *)
Theorem failed_load_without_error_container_is_silent `{Host}
    (res : FetchResult) (cause : string) (s : BlogList) :
  failure_cause res = Some cause ->
  errorContainer s = None ->
  init res s =
  Normal tt (set_loadingIndicator (with_hidden true <$> loadingIndicator s) s).
Proof.
  intros Hc Hec. rewrite (init_failure res cause s Hc).
  destruct s as [lc li ec ss fs si it fit pg pp h ls st].
  simpl in Hec. subst ec. now destruct li.
Qed.

(** X3.  A response with a status in 200-299 whose body is an array, on
    a page with the three controls and the list container: [init]
    completes normally, the master collection is exactly the array
    received, the view is [deriveView] of it under the controls' current
    values, the list area shows the slice of the current page, the error
    container is untouched, the loading indicator is hidden and the
    listeners are installed. *)
Theorem successful_load_shows_view `{Host} (status : Z) (data : list Blog)
    (s : BlogList) (si fs ss lc : Element) :
  ok status = true ->
  searchInput s = Some si -> filterSelect s = Some fs ->
  sortSelect s = Some ss -> listContainer s = Some lc ->
  let view := deriveView data (value si) (value fs) (value ss) in
  exists s',
    init (Response status (JsonArray data)) s = Normal tt s' /\
    contents (heap s') (items s') = data /\
    contents (heap s') (filteredItems s') = view /\
    listContainer s' =
      Some (with_text (renderHTML (renderSlice view (page s) (perPage s))) lc) /\
    errorContainer s' = errorContainer s /\
    loadingIndicator s' = with_hidden true <$> loadingIndicator s /\
    listening s' = true.
Proof.
  intros Hok Hsi Hfs Hss Hlc view. rewrite (init_success status data s Hok).
  set (l := fresh (dom (heap s))).
  set (s3 := set_listening true _).
  assert (Hitems : heap s3 !! items s3 = Some data) by apply lookup_insert_eq.
  pose proof (applyFiltersAndSorting_hoare s3 s3 eq_refl) as Hh.
  unfold try_finally, try_catch.
  destruct (applyFiltersAndSorting s3) as [[] s4|e s4].
  - destruct Hh as (si' & fs' & ss' & lc' & wl & h' & Hsi' & Hfs' & Hss' & Hlc'
                    & Hext & Hwl & Hview & ->).
    change (searchInput s3) with (searchInput s) in Hsi'.
    change (filterSelect s3) with (filterSelect s) in Hfs'.
    change (sortSelect s3) with (sortSelect s) in Hss'.
    change (listContainer s3) with (listContainer s) in Hlc'.
    assert (si' = si) as -> by congruence. assert (fs' = fs) as -> by congruence.
    assert (ss' = ss) as -> by congruence. assert (lc' = lc) as -> by congruence.
    rewrite (contents_lookup _ _ _ Hitems) in Hview.
    eexists. split; [reflexivity|].
    cbn [heap items filteredItems listContainer errorContainer loadingIndicator
         listening set_loadingIndicator set_listContainer set_filteredItems
         set_heap set_listening set_items].
    assert (items s3 ∈ dom (heap s3)) as Hdom
      by (apply elem_of_dom; rewrite Hitems; eauto).
    split; [|split; [|split; [|split; [|split]]]].
    + apply contents_lookup. rewrite (Hext _ Hdom). exact Hitems.
    + now apply contents_lookup.
    + now rewrite (contents_lookup _ _ _ Hitems).
    + reflexivity.
    + unfold s3. cbn. now destruct (loadingIndicator s).
    + reflexivity.
  - exfalso. destruct Hh as [_ Hm]. unfold missing_element in Hm.
    change (searchInput s3) with (searchInput s) in Hm.
    change (filterSelect s3) with (filterSelect s) in Hm.
    change (sortSelect s3) with (sortSelect s) in Hm.
    change (listContainer s3) with (listContainer s) in Hm.
    intuition congruence.
Qed.

(** ** The event loop *)

Section EventLoop.
Context `{host : Host}.

Lemma run_cons (ev : event) (evs : list event) (s : BlogList) :
  run (ev :: evs) s = run evs (handle ev s).
Proof. reflexivity. Qed.

Lemma run_app (evs evs' : list event) (s : BlogList) :
  run (evs ++ evs') s = run evs' (run evs s).
Proof. unfold run. apply fold_left_app. Qed.

Lemma handle_idle (ev : event) (s : BlogList) :
  idle s ->
  idle (handle ev s) /\
  apart_from_controls (handle ev s) = apart_from_controls s.
Proof.
  intros [Hl Ht]. destruct s as [lc li ec ss fs si it fit pg pp h ls st].
  simpl in Hl, Ht. subst ls st.
  destruct ev as [v|v|v|]; cbn [handle sortSelect filterSelect searchInput
                                 searchTimer listening].
  - destruct ss; now split.
  - destruct fs; now split.
  - destruct si; now split.
  - now split.
Qed.

Lemma run_idle (evs : list event) (s : BlogList) :
  idle s ->
  idle (run evs s) /\ apart_from_controls (run evs s) = apart_from_controls s.
Proof.
  revert s. induction evs as [|ev evs IH]; intros s Hi; [now split|].
  rewrite run_cons. destruct (handle_idle ev s Hi) as [Hi' He].
  destruct (IH _ Hi') as [Hi'' He']. split; [exact Hi''|]. now rewrite He', He.
Qed.

Lemma init_failure_idle (res : FetchResult) (cause : string) (s : BlogList) :
  failure_cause res = Some cause -> idle s -> idle (state_of (init res s)).
Proof.
  intros Hc [Hl Ht]. rewrite (init_failure res cause s Hc).
  destruct s as [lc li ec ss fs si it fit pg pp h ls st].
  simpl in Hl, Ht. subst ls st.
  destruct ec, lc, li; now split.
Qed.

Lemma store_extends_trans (h1 h2 h3 : gmap loc (list Blog)) :
  store_extends h1 h2 -> store_extends h2 h3 -> store_extends h1 h3.
Proof.
  intros H12 H23 l Hl.
  rewrite (H23 l (store_extends_dom h1 h2 l H12 Hl)). now apply H12.
Qed.

Lemma onControlChange_frame (s : BlogList) :
  items (state_of (onControlChange s)) = items s /\
  store_extends (heap s) (heap (state_of (onControlChange s))).
Proof. exact (applyFiltersAndSorting_frame (set_page 1 s)). Qed.

Lemma handle_frame (ev : event) (s : BlogList) :
  items (handle ev s) = items s /\ store_extends (heap s) (heap (handle ev s)).
Proof.
  assert (Hrefl : items s = items s /\ store_extends (heap s) (heap s))
    by (split; [reflexivity | apply store_extends_refl]).
  destruct ev as [v|v|v|]; cbn [handle].
  - destruct (sortSelect s) as [e|]; [|exact Hrefl]. cbn [listening set_sortSelect].
    destruct (listening s); [|exact Hrefl].
    exact (onControlChange_frame (set_sortSelect _ s)).
  - destruct (filterSelect s) as [e|]; [|exact Hrefl]. cbn [listening set_filterSelect].
    destruct (listening s); [|exact Hrefl].
    exact (onControlChange_frame (set_filterSelect _ s)).
  - destruct (searchInput s) as [e|]; [|exact Hrefl]. cbn [listening set_searchInput].
    destruct (listening s); exact Hrefl.
  - destruct (searchTimer s); [|exact Hrefl].
    exact (onControlChange_frame (set_searchTimer false s)).
Qed.

Lemma typing_run (vs : list string) (v : string) (s : BlogList) (si : Element) :
  listening s = true -> searchInput s = Some si ->
  run (map InputSearch (vs ++ [v])) s =
  set_searchTimer true (set_searchInput (Some (with_value v si)) s).
Proof.
  revert s si. induction vs as [|w vs IH]; intros s si Hl Hsi.
  - cbn. now rewrite Hsi, Hl.
  - cbn [app map]. rewrite run_cons. cbn [handle]. rewrite Hsi.
    cbn [listening set_searchInput]. rewrite Hl.
    now rewrite (IH _ (with_value w si)).
Qed.

Lemma searchTimer_untouched : Untouched searchTimer.
Proof. split; reflexivity. Qed.

End EventLoop.

(** X4.  After a failed load no listener exists, so nothing the user does
    with the controls has any effect beyond the controls' own values:
    whatever events follow, the list area, the error container, the
    loading indicator, the master collection, the view and the store stay
    as [init] left them. *)
Theorem controls_are_dead_after_failed_load `{Host}
    (lc li ec ss fs si : option Element) (res : FetchResult) (cause : string)
    (evs : list event) :
  failure_cause res = Some cause ->
  let s1 := state_of (init res (constructor lc li ec ss fs si)) in
  listening (run evs s1) = false /\
  apart_from_controls (run evs s1) = apart_from_controls s1.
Proof.
  intros Hc s1.
  assert (Hi : idle s1) by (apply (init_failure_idle res cause _ Hc); now split).
  destruct (run_idle evs s1 Hi) as [[Hl _] He]. now split.
Qed.

(** X5.  Handling events never writes to an array that exists: after any
    sequence of control events, [this.items] is the same array, and every
    array the store held before (the master collection and earlier views)
    has the contents it had. *)
Theorem events_never_mutate_existing_arrays `{Host} (evs : list event) (s : BlogList) :
  items (run evs s) = items s /\
  store_extends (heap s) (heap (run evs s)).
Proof.
  revert s. induction evs as [|ev evs IH]; intros s.
  - split; [reflexivity | apply store_extends_refl].
  - rewrite run_cons. destruct (handle_frame ev s) as [Hi He].
    destruct (IH (handle ev s)) as [Hi' He']. split; [congruence|].
    eapply store_extends_trans; eassumption.
Qed.

(** X6.  The search input is debounced: a burst of input events does not
    recompute or redraw anything, it leaves the last value typed in the
    input and one timer pending; when the timer fires the view is
    recomputed once, for the last value, and its first page is shown; a
    timer firing again finds nothing pending and does nothing. *)
Theorem search_input_is_debounced `{Host} (s : BlogList) (si fs ss lc : Element)
    (vs : list string) (v : string) :
  listening s = true ->
  searchInput s = Some si -> filterSelect s = Some fs ->
  sortSelect s = Some ss -> listContainer s = Some lc ->
  let typed := run (map InputSearch (vs ++ [v])) s in
  typed = set_searchTimer true (set_searchInput (Some (with_value v si)) s) /\
  exists s',
    onControlChange (set_searchTimer false typed) = Normal tt s' /\
    handle TimerFires typed = s' /\
    listContainer s' =
      Some (with_text
              (renderHTML
                 (renderSlice (deriveView (contents (heap s) (items s))
                                          v (value fs) (value ss))
                              1 (perPage s))) lc) /\
    handle TimerFires s' = s'.
Proof.
  intros Hl Hsi Hfs Hss Hlc typed.
  assert (Ht : typed = set_searchTimer true
                         (set_searchInput (Some (with_value v si)) s))
    by (apply typing_run; assumption).
  split; [exact Ht|]. rewrite Ht.
  destruct (onControlChange_view
              (set_searchTimer false
                 (set_searchTimer true (set_searchInput (Some (with_value v si)) s)))
              (with_value v si) fs ss lc eq_refl Hfs Hss Hlc)
    as (s' & Hrun & _ & Hlc').
  exists s'. split; [exact Hrun|].
  assert (Hst : searchTimer s' = false).
  { change s' with (state_of (Normal tt s')). rewrite <- Hrun.
    change (onControlChange ?x) with (applyFiltersAndSorting (set_page 1 x)).
    now rewrite (preserves_applyFiltersAndSorting searchTimer
                   (Hf := searchTimer_untouched)). }
  split; [|split].
  - cbn [handle searchTimer set_searchTimer]. now rewrite Hrun.
  - exact Hlc'.
  - cbn [handle]. now rewrite Hst.
Qed.

(** X7.  In every state the component reaches, a control change shows
    the first ten records of the recomputed view, or all of them when
    there are fewer. *)
Theorem control_change_shows_at_most_ten `{Host} (s : BlogList)
    (si fs ss lc : Element) :
  reachable s ->
  searchInput s = Some si -> filterSelect s = Some fs ->
  sortSelect s = Some ss -> listContainer s = Some lc ->
  let view := deriveView (contents (heap s) (items s))
                         (value si) (value fs) (value ss) in
  exists s',
    onControlChange s = Normal tt s' /\
    listContainer s' = Some (with_text (renderHTML (firstn 10 view)) lc).
Proof.
  intros Hr Hsi Hfs Hss Hlc view.
  destruct (onControlChange_view s si fs ss lc Hsi Hfs Hss Hlc) as (s' & Hrun & _ & Hlc').
  exists s'. split; [exact Hrun|]. rewrite Hlc'.
  destruct (reachable_first_page s Hr) as [_ ->].
  unfold renderSlice. now rewrite slice0_nonneg.
Qed.

(** ** More on the query engine *)

Section EngineMore.
Context `{host : Host}.

Lemma append_assoc (a b c : string) : (a +:+ b) +:+ c = a +:+ (b +:+ c).
Proof. induction a as [|x a IH]; [reflexivity | exact (f_equal (String x) IH)]. Qed.

Lemma substring_of_trans (a b c : string) :
  substring_of a b -> substring_of b c -> substring_of a c.
Proof.
  intros (p1 & q1 & ->) (p2 & q2 & ->).
  exists (p2 +:+ p1), (q1 +:+ q2). now rewrite !append_assoc.
Qed.

Lemma filter_sublist {A} (f : A -> bool) (l : list A) : sublist (List.filter f l) l.
Proof.
  induction l as [|x l IH]; simpl; [constructor|].
  destruct (f x); now constructor.
Qed.

Lemma filter_comm {A} (f g : A -> bool) (l : list A) :
  List.filter f (List.filter g l) = List.filter g (List.filter f l).
Proof.
  induction l as [|x l IH]; simpl; [reflexivity|].
  destruct (f x) eqn:Hf, (g x) eqn:Hg; simpl; rewrite ?Hf, ?Hg, IH; reflexivity.
Qed.

Lemma filter_idem {A} (f : A -> bool) (l : list A) :
  List.filter f (List.filter f l) = List.filter f l.
Proof.
  apply filter_true. intros x Hx. now apply filter_In in Hx.
Qed.

Lemma filter_implied {A} (f g : A -> bool) (l : list A) :
  (forall x, g x = true -> f x = true) ->
  List.filter g (List.filter f l) = List.filter g l.
Proof.
  intros Hfg. induction l as [|x l IH]; simpl; [reflexivity|].
  destruct (f x) eqn:Hf; simpl.
  - now rewrite IH.
  - destruct (g x) eqn:Hg; [|exact IH]. rewrite (Hfg x Hg) in Hf. discriminate.
Qed.

Lemma categoryStep_filter (c : string) (l : list Blog) :
  categoryStep c l =
  List.filter (fun blog => negb (JS.truthy c) || categoryCallback c blog) l.
Proof.
  unfold categoryStep. destruct (JS.truthy c); simpl; [reflexivity|].
  symmetry. now apply filter_true.
Qed.

Lemma searchStep_sublist (v : string) (l : list Blog) : sublist (searchStep v l) l.
Proof. rewrite searchStep_filter. apply filter_sublist. Qed.

Lemma categoryStep_sublist (c : string) (l : list Blog) : sublist (categoryStep c l) l.
Proof. rewrite categoryStep_filter. apply filter_sublist. Qed.

Lemma reading_time_by_key (l : list Blog) :
  by_key (comparator "reading_time")
         (fun blog => JS.or_num (reading_time blog) 0) l.
Proof. intros a b _ _. reflexivity. Qed.

Lemma card_starts_with_newline (item : Blog) :
  exists rest, card item = String "010"%char rest.
Proof. unfold card, cardHead, nl. eexists. reflexivity. Qed.

Lemma renderHTML_noResults (slice : list Blog) :
  renderHTML slice = noResults <-> slice = [].
Proof.
  split; [|now intros ->].
  destruct slice as [|item slice]; [reflexivity|].
  unfold renderHTML. cbn [length map JS.join fold_right].
  destruct (card_starts_with_newline item) as [rest ->].
  intros Heq. discriminate Heq.
Qed.

Lemma renderHTML_not_blank (slice : list Blog) : renderHTML slice <> EmptyString.
Proof.
  destruct slice as [|item slice]; [discriminate|].
  unfold renderHTML. cbn [length map JS.join fold_right].
  destruct (card_starts_with_newline item) as [rest ->]. discriminate.
Qed.

End EngineMore.

(** X8.  With sort key [reading_time] the view is, for every list, the
    records rearranged by ascending reading time, an absent or zero
    reading time counting as 0; records with the same reading time keep
    their order. *)
Theorem reading_time_sort_is_ascending_and_stable `{Host} (l : list Blog) :
  let view := sortStep "reading_time" l in
  Permutation view l /\
  StronglySorted (fun a b => JS.or_num (reading_time a) 0 <=
                             JS.or_num (reading_time b) 0) view /\
  forall k,
    List.filter (fun blog => JS.or_num (reading_time blog) 0 =? k) view =
    List.filter (fun blog => JS.or_num (reading_time blog) 0 =? k) l.
Proof.
  intros view. split; [apply sortStep_perm|]. split.
  - exact (sort_sorted _ _ l (reading_time_by_key l)).
  - intros k. exact (sort_stable _ _ l k (reading_time_by_key l)).
Qed.

(** X9.  A sort type other than [date], [reading_time] and [category]
    leaves the filtered records in the order they have. *)
Theorem unknown_sort_type_keeps_order `{Host} (sortType : string) (l : list Blog) :
  sortType <> "date" -> sortType <> "reading_time" -> sortType <> "category" ->
  sortStep sortType l = l.
Proof.
  intros Hd Hr Hc. unfold sortStep. destruct (JS.truthy sortType); [|reflexivity].
  apply sort_ordered.
  assert (Hcmp : forall a b, JS.SortCompare (comparator sortType) a b = 0).
  { intros a b. unfold JS.SortCompare, comparator.
    apply String.eqb_neq in Hd, Hr, Hc. now rewrite Hd, Hr, Hc. }
  induction l as [|a l IH]; constructor; [|exact IH].
  apply List.Forall_forall. intros b _. now rewrite Hcmp.
Qed.

(** X10.  The two filters only remove records: without a sort type the
    view is a subsequence of the master collection, in the master
    collection's order; with one it is a rearrangement of that
    subsequence; so the view is never longer than the master
    collection. *)
Theorem view_is_rearranged_subsequence `{Host} (master : list Blog)
    (term categoryFilter sortType : string) :
  sublist (deriveView master term categoryFilter EmptyString) master /\
  Permutation (deriveView master term categoryFilter sortType)
              (deriveView master term categoryFilter EmptyString) /\
  (length (deriveView master term categoryFilter sortType) <= length master)%nat.
Proof.
  assert (Hs : sublist (deriveView master term categoryFilter EmptyString) master).
  { unfold deriveView. cbn [sortStep JS.truthy].
    etransitivity; [apply categoryStep_sublist | apply searchStep_sublist]. }
  assert (Hp : Permutation (deriveView master term categoryFilter sortType)
                 (deriveView master term categoryFilter EmptyString))
    by apply sortStep_perm.
  split; [exact Hs|]. split; [exact Hp|].
  rewrite (Permutation_length Hp). now apply sublist_length.
Qed.

(** X11.  The search and the category filter can be applied in either
    order with the same result, and applying either of them a second time
    changes nothing. *)
Theorem filters_commute_and_are_idempotent `{Host} (l : list Blog)
    (term categoryFilter : string) :
  categoryStep categoryFilter (searchStep term l) =
    searchStep term (categoryStep categoryFilter l) /\
  searchStep term (searchStep term l) = searchStep term l /\
  categoryStep categoryFilter (categoryStep categoryFilter l) =
    categoryStep categoryFilter l.
Proof.
  rewrite !searchStep_filter, !categoryStep_filter.
  split; [apply filter_comm|]. split; apply filter_idem.
Qed.

(** X12.  Extending the search term narrows the result: when the
    lower-cased term [t1] occurs in the lower-cased term [t2], every record
    found for [t2] is among those found for [t1], so searching for [t2]
    within the result for [t1] gives the result for [t2]. *)
Theorem longer_term_narrows_search `{Host} (l : list Blog) (t1 t2 : string) :
  substring_of (toLowerCase t1) (toLowerCase t2) ->
  searchStep t2 (searchStep t1 l) = searchStep t2 l /\
  sublist (searchStep t2 l) (searchStep t1 l).
Proof.
  intros Hsub.
  assert (Heq : searchStep t2 (searchStep t1 l) = searchStep t2 l).
  { rewrite !searchStep_filter. apply filter_implied. intros blog Hb.
    apply searchCallback_spec. apply searchCallback_spec in Hb.
    eapply substring_of_trans; eassumption. }
  split; [exact Heq|]. rewrite <- Heq. apply searchStep_sublist.
Qed.

(** X13.  On a page with a list container [render] always writes
    something into it: the "No blogs found" paragraph exactly when the
    slice of the current page is empty, and otherwise the cards of the
    slice; the list area is never left blank. *)
Theorem render_shows_no_results_iff_slice_empty `{Host} (s : BlogList) (lc : Element) :
  listContainer s = Some lc ->
  let slice := renderSlice (contents (heap s) (filteredItems s)) (page s) (perPage s) in
  exists html,
    render s = Normal tt (set_listContainer (Some (with_text html lc)) s) /\
    (html = noResults <-> slice = []) /\
    (slice <> [] -> html = JS.join (map card slice)) /\
    html <> EmptyString.
Proof.
  intros Hlc slice. exists (renderHTML slice).
  split; [exact (render_run s lc Hlc)|].
  split; [apply renderHTML_noResults|]. split; [|apply renderHTML_not_blank].
  intros Hne. unfold renderHTML. destruct slice; [congruence | reflexivity].
Qed.

Section MissingSearchInput.
Context `{host : Host}.

Lemma applyFiltersAndSorting_without_search_input (s : BlogList) :
  searchInput s = None ->
  applyFiltersAndSorting s =
  Throw (Error (nullRead "value"))
        (set_heap (<[fresh (dom (heap s)) := contents (heap s) (items s)]> (heap s)) s).
Proof.
  intros Hsi. unfold applyFiltersAndSorting.
  change (applyFiltersAndSorting s) with (applyFiltersAndSorting s).
  unfold mbind at 1, M_bind at 1.
  change ((l ← gets items; spread l) s)
    with (alloc (contents (heap s) (items s)) s).
  rewrite alloc_run. unfold mbind at 1, M_bind at 1, get_value.
  cbn [searchInput set_heap]. now rewrite Hsi.
Qed.

Lemma showError_run (err : exn) (s : BlogList) (ec lc : Element) :
  errorContainer s = Some ec -> listContainer s = Some lc ->
  showError err s =
  Normal tt
    (set_loadingIndicator (with_hidden true <$> loadingIndicator s)
       (set_listContainer (Some (with_text EmptyString lc))
          (set_errorContainer
             (Some {| hidden := false; text := errorText (message err);
                      value := value ec |}) s))).
Proof.
  intros Hec Hlc. destruct s as [lc' li ec' ss fs si it fit pg pp h ls st].
  simpl in Hec, Hlc. now subst lc' ec'.
Qed.

End MissingSearchInput.

(** X14.  [applyFiltersAndSorting] reads [this.searchInput.value] without
    a null check.  On a page that has no search input but has the error
    and list containers, a load that succeeds still ends in the error
    surface: [init] completes normally, the master collection is the
    array received and the listeners are installed, but the list area is
    empty and the error container shows the host's message for reading
    [value] of [null]. *)
Theorem load_without_search_input_ends_in_error `{Host} (status : Z)
    (data : list Blog) (s : BlogList) (ec lc : Element) :
  ok status = true ->
  searchInput s = None ->
  errorContainer s = Some ec -> listContainer s = Some lc ->
  exists s',
    init (Response status (JsonArray data)) s = Normal tt s' /\
    contents (heap s') (items s') = data /\
    listening s' = true /\
    listContainer s' = Some (with_text EmptyString lc) /\
    errorContainer s' =
      Some {| hidden := false; text := errorText (nullRead "value");
              value := value ec |} /\
    loadingIndicator s' = with_hidden true <$> loadingIndicator s.
Proof.
  intros Hok Hsi Hec Hlc. rewrite (init_success status data s Hok).
  unfold try_finally, try_catch.
  rewrite applyFiltersAndSorting_without_search_input by exact Hsi.
  set (l := fresh (dom (heap s))).
  set (s3 := set_listening true _).
  set (l' := fresh (dom (heap s3))).
  assert (Hne : l' <> l).
  { intros Heq. apply (is_fresh (dom (heap s3))). fold l'. rewrite Heq.
    apply elem_of_dom. unfold s3. cbn [heap set_listening set_items set_heap].
    rewrite lookup_insert_eq. eauto. }
  rewrite (showError_run _ (set_heap _ s3) ec lc Hec Hlc).
  eexists. split; [reflexivity|].
  cbn [heap items listening listContainer errorContainer loadingIndicator
       set_loadingIndicator set_listContainer set_errorContainer set_heap
       set_listening set_items s3 message].
  split; [|split; [reflexivity | split; [reflexivity | split; [reflexivity|]]]].
  - apply contents_lookup. rewrite lookup_insert_ne by exact Hne.
    apply lookup_insert_eq.
  - cbn. now destruct (loadingIndicator s).
Qed.

(** * The page around the component *)

(** ** Class lists *)

Lemma contains_add (c : string) (l : list string) :
  ClassList.contains c (ClassList.add c l) = true.
Proof.
  unfold ClassList.add. destruct (ClassList.contains c l) eqn:Hc; [exact Hc|].
  unfold ClassList.contains. rewrite existsb_app. simpl.
  rewrite String.eqb_refl. now rewrite !orb_true_r.
Qed.

Lemma contains_remove (c : string) (l : list string) :
  ClassList.contains c (ClassList.remove c l) = false.
Proof.
  unfold ClassList.contains, ClassList.remove.
  induction l as [|x l IH]; [reflexivity|]. simpl.
  destruct (String.eqb_spec x c) as [->|Hne]; simpl; [exact IH|].
  rewrite IH. destruct (String.eqb_spec c x); [congruence | reflexivity].
Qed.

Lemma remove_absent (c : string) (l : list string) :
  ClassList.contains c l = false -> ClassList.remove c l = l.
Proof.
  unfold ClassList.contains, ClassList.remove.
  induction l as [|x l IH]; [reflexivity|]. simpl. intros Hc.
  apply orb_false_elim in Hc as [Hx Hl].
  rewrite String.eqb_sym, Hx. simpl. now rewrite IH.
Qed.

Lemma remove_add (c : string) (l : list string) :
  ClassList.remove c (ClassList.add c l) = ClassList.remove c l.
Proof.
  unfold ClassList.add. destruct (ClassList.contains c l); [reflexivity|].
  unfold ClassList.remove. rewrite List.filter_app. simpl.
  rewrite String.eqb_refl. simpl. apply app_nil_r.
Qed.

Lemma contains_toggle (c : string) (l : list string) :
  ClassList.contains c (ClassList.toggle c l) = negb (ClassList.contains c l).
Proof.
  unfold ClassList.toggle. destruct (ClassList.contains c l) eqn:Hc; simpl.
  - apply contains_remove.
  - apply contains_add.
Qed.

(** ** The mobile menu *)

Lemma clickToggle_in_sync (m : Menu.State) :
  Menu.in_sync m -> Menu.in_sync (Menu.clickToggle m).
Proof.
  unfold Menu.in_sync, Menu.clickToggle. cbn [Menu.navClasses Menu.ariaExpanded].
  intros Hs. rewrite contains_toggle.
  destruct (Menu.ariaExpanded m) as [v|].
  - destruct (String.eqb_spec v "true") as [->|Hne]; simpl.
    + rewrite (proj2 Hs eq_refl). simpl. split; discriminate.
    + destruct (ClassList.contains "is-open" (Menu.navClasses m)); simpl.
      * exfalso. apply Hne. now injection (proj1 Hs eq_refl).
      * now split.
  - simpl. destruct (ClassList.contains "is-open" (Menu.navClasses m)); simpl.
    + discriminate (proj1 Hs eq_refl).
    + now split.
Qed.

Lemma clickLink_in_sync (w : Z) (m : Menu.State) :
  Menu.in_sync m -> Menu.in_sync (Menu.clickLink w m).
Proof.
  unfold Menu.clickLink. destruct (w <=? 768); [|trivial].
  intros _. unfold Menu.in_sync. cbn [Menu.navClasses Menu.ariaExpanded].
  rewrite contains_remove. split; discriminate.
Qed.

(** X15.  If the [is-open] class of the navigation list and the
    [aria-expanded] attribute of the toggle button agree on whether the
    menu is open, they still agree after any sequence of clicks on the
    toggle and on navigation links, at any window widths. *)
Theorem menu_class_and_aria_stay_in_sync (cs : list Menu.click) (m : Menu.State) :
  Menu.in_sync m -> Menu.in_sync (Menu.clicks cs m).
Proof.
  revert m. induction cs as [|c cs IH]; intros m Hs; [exact Hs|].
  apply (IH (Menu.onClick c m)).
  destruct c; [now apply clickToggle_in_sync | now apply clickLink_in_sync].
Qed.

(** X16.  Two clicks on the toggle bring the menu back: the navigation
    list has [is-open] after them exactly if it had it before, and
    [aria-expanded] is "true" exactly if it was.  A click on a link in a
    window at most 768 wide closes the menu whatever state it was in, and
    leaves class and attribute in agreement. *)
Theorem menu_toggle_twice_and_link_click (m : Menu.State) (w : Z) :
  let m2 := Menu.clickToggle (Menu.clickToggle m) in
  ClassList.contains "is-open" (Menu.navClasses m2) =
    ClassList.contains "is-open" (Menu.navClasses m) /\
  (Menu.ariaExpanded m2 = Some "true" <-> Menu.ariaExpanded m = Some "true") /\
  (w <= 768 ->
   ClassList.contains "is-open" (Menu.navClasses (Menu.clickLink w m)) = false /\
   Menu.ariaExpanded (Menu.clickLink w m) = Some "false" /\
   Menu.in_sync (Menu.clickLink w m)).
Proof.
  intros m2. split; [|split].
  - unfold m2, Menu.clickToggle. cbn [Menu.navClasses].
    rewrite !contains_toggle. apply negb_involutive.
  - unfold m2, Menu.clickToggle. cbn [Menu.ariaExpanded].
    destruct (Menu.ariaExpanded m) as [v|]; simpl.
    + destruct (String.eqb_spec v "true") as [->|Hne]; simpl; [tauto|].
      split; [discriminate | congruence].
    + split; discriminate.
  - intros Hw. unfold Menu.clickLink. apply Z.leb_le in Hw. rewrite Hw.
    cbn [Menu.navClasses Menu.ariaExpanded]. split; [apply contains_remove|].
    split; [reflexivity|]. unfold Menu.in_sync.
    cbn [Menu.navClasses Menu.ariaExpanded]. rewrite contains_remove.
    split; discriminate.
Qed.

(** ** The navigation highlight *)

Lemma querySelector_lookup (t : string) (doc : list Nav.Link) (i : nat) :
  Nav.querySelector t doc = Some i -> exists l, doc !! i = Some l.
Proof.
  revert i. induction doc as [|x doc IH]; intros i; simpl; [discriminate|].
  destruct (Nav.matches t x).
  - intros [= <-]. now exists x.
  - destruct (Nav.querySelector t doc) as [j|]; [|discriminate].
    intros [= <-]. apply (IH j eq_refl).
Qed.

(** The selector looks at tags and [href]s only, which the callback
    leaves alone. *)
Lemma querySelector_shape (t : string) (doc doc' : list Nav.Link) :
  Forall2 (fun l l' => Nav.isAnchor l = Nav.isAnchor l' /\ Nav.href l = Nav.href l')
          doc doc' ->
  Nav.querySelector t doc = Nav.querySelector t doc'.
Proof.
  induction 1 as [|l l' doc doc' [Ha Hh] _ IH]; [reflexivity|]. simpl.
  unfold Nav.matches. now rewrite Ha, Hh, IH.
Qed.

Lemma onEntry_shape (doc : list Nav.Link) (e : Nav.Entry) :
  Forall2 (fun l l' => Nav.isAnchor l = Nav.isAnchor l' /\ Nav.href l = Nav.href l')
          doc (Nav.onEntry doc e).
Proof.
  assert (Hrefl : forall d : list Nav.Link,
            Forall2 (fun l l' => Nav.isAnchor l = Nav.isAnchor l' /\
                                 Nav.href l = Nav.href l') d d).
  { intros d. induction d; constructor; auto. }
  unfold Nav.onEntry. destruct (Nav.querySelector _ doc) as [i|]; [|apply Hrefl].
  destruct (Nav.isIntersecting e); [|apply Hrefl].
  revert i. induction doc as [|l doc IH]; intros i; [constructor|].
  destruct i as [|i]; simpl.
  - constructor.
    + unfold Nav.deactivate. now destruct (Nav.navTab l).
    + clear IH. induction doc as [|x doc IH]; constructor; [|exact IH].
      unfold Nav.deactivate. now destruct (Nav.navTab x).
  - constructor; [|apply IH].
    unfold Nav.deactivate. now destruct (Nav.navTab l).
Qed.

Lemma onEntry_effective (doc : list Nav.Link) (e e' : Nav.Entry) :
  Nav.effective (Nav.onEntry doc e) e' = Nav.effective doc e'.
Proof.
  unfold Nav.effective.
  now rewrite <- (querySelector_shape _ doc (Nav.onEntry doc e) (onEntry_shape doc e)).
Qed.

Lemma onEntry_not_effective (doc : list Nav.Link) (e : Nav.Entry) :
  Nav.effective doc e = false -> Nav.onEntry doc e = doc.
Proof.
  unfold Nav.effective, Nav.onEntry.
  destruct (Nav.querySelector _ doc); [|reflexivity].
  destruct (Nav.isIntersecting e); [discriminate | reflexivity].
Qed.

Lemma callback_not_effective (es : list Nav.Entry) (doc : list Nav.Link) :
  forallb (fun e => negb (Nav.effective doc e)) es = true ->
  Nav.callback es doc = doc.
Proof.
  induction es as [|e es IH]; [reflexivity|]. simpl. intros He.
  apply andb_prop in He as [He Hes]. apply negb_true_iff in He.
  unfold Nav.callback. simpl. rewrite (onEntry_not_effective doc e He).
  now apply IH.
Qed.

Lemma callback_effective (es : list Nav.Entry) (doc : list Nav.Link) (e' : Nav.Entry) :
  Nav.effective (Nav.callback es doc) e' = Nav.effective doc e'.
Proof.
  revert doc. induction es as [|e es IH]; intros doc; [reflexivity|].
  unfold Nav.callback. simpl. fold (Nav.callback es (Nav.onEntry doc e)).
  now rewrite IH, onEntry_effective.
Qed.

Lemma callback_querySelector (es : list Nav.Entry) (doc : list Nav.Link) (t : string) :
  Nav.querySelector t (Nav.callback es doc) = Nav.querySelector t doc.
Proof.
  revert doc. induction es as [|e es IH]; intros doc; [reflexivity|].
  unfold Nav.callback. simpl. fold (Nav.callback es (Nav.onEntry doc e)).
  rewrite IH. symmetry. apply querySelector_shape, onEntry_shape.
Qed.

Lemma forallb_eq {A} (f g : A -> bool) (l : list A) :
  (forall x, f x = g x) -> forallb f l = forallb g l.
Proof. intros Hfg. induction l as [|x l IH]; simpl; [reflexivity|]. now rewrite Hfg, IH. Qed.

Lemma callback_app (es es' : list Nav.Entry) (doc : list Nav.Link) :
  Nav.callback (es ++ es') doc = Nav.callback es' (Nav.callback es doc).
Proof. unfold Nav.callback. apply fold_left_app. Qed.

Lemma active_activate (l : Nav.Link) : Nav.active (Nav.activate l) = true.
Proof. apply contains_add. Qed.

Lemma active_deactivate (l : Nav.Link) :
  Nav.navTab l = true -> Nav.active (Nav.deactivate l) = false.
Proof.
  intros Ht. unfold Nav.deactivate. rewrite Ht. apply contains_remove.
Qed.

Lemma navTab_deactivate (l : Nav.Link) : Nav.navTab (Nav.deactivate l) = Nav.navTab l.
Proof. unfold Nav.deactivate. now destruct (Nav.navTab l) eqn:Ht. Qed.

(** X17.  Entries that do not intersect, or whose section has no link,
    change nothing: a callback made of such entries leaves every class
    list as it is, so leaving a section never removes a highlight. *)
Theorem highlight_unchanged_without_effective_entry
    (es : list Nav.Entry) (doc : list Nav.Link) :
  forallb (fun e => negb (Nav.effective doc e)) es = true ->
  Nav.callback es doc = doc.
Proof. apply callback_not_effective. Qed.

(** X18.  After a callback, the link of the last entry that intersects
    and has a link carries [active], and no other member of [navLinks]
    does: whatever was highlighted before, and whatever earlier entries
    of the same callback did. *)
Theorem highlight_follows_last_effective_entry
    (doc : list Nav.Link) (es es' : list Nav.Entry) (e : Nav.Entry) (i : nat) :
  Nav.querySelector ("#" +:+ Nav.targetId e) doc = Some i ->
  Nav.isIntersecting e = true ->
  forallb (fun e' => negb (Nav.effective doc e')) es' = true ->
  let doc' := Nav.callback (es ++ e :: es') doc in
  (exists l, doc' !! i = Some l /\ Nav.active l = true) /\
  (forall j l, j <> i -> doc' !! j = Some l -> Nav.navTab l = true ->
               Nav.active l = false).
Proof.
  intros Hq Hi Hes' doc'.
  set (doc1 := Nav.callback es doc).
  assert (Hq1 : Nav.querySelector ("#" +:+ Nav.targetId e) doc1 = Some i)
    by (unfold doc1; now rewrite callback_querySelector).
  assert (Hdoc' : doc' = alter Nav.activate i (map Nav.deactivate doc1)).
  { unfold doc'. rewrite callback_app. fold doc1.
    change (Nav.callback (e :: es') doc1)
      with (Nav.callback es' (Nav.onEntry doc1 e)).
    rewrite callback_not_effective.
    - unfold Nav.onEntry. now rewrite Hq1, Hi.
    - rewrite <- Hes'. apply forallb_eq. intros e'.
      rewrite onEntry_effective. unfold doc1. now rewrite callback_effective. }
  destruct (querySelector_lookup _ _ _ Hq1) as [l Hl].
  rewrite Hdoc'. split.
  - exists (Nav.activate (Nav.deactivate l)). split; [|apply active_activate].
    rewrite list_lookup_alter_eq, list_lookup_fmap, Hl. reflexivity.
  - intros j x Hj Hx Ht.
    rewrite list_lookup_alter_ne in Hx by congruence.
    rewrite list_lookup_fmap in Hx.
    destruct (doc1 !! j) as [y|]; [|discriminate].
    injection Hx as <-. rewrite navTab_deactivate in Ht.
    now apply active_deactivate.
Qed.

(** ** The element tree *)

Section DomFacts.
Import Dom.

Lemma Node_induction (P : Node -> Prop) :
  (forall k i cl ch, Forall P ch -> P (El k i cl ch)) -> forall n, P n.
Proof.
  intros H. fix IH 1. intros [k i cl ch]. apply H.
  induction ch as [|x ch IHch]; constructor; [apply IH | exact IHch].
Qed.

Lemma first_some_map {A B} (f g : A -> option B) (h : A -> A) (l : list A) :
  Forall (fun x => f (h x) = g x) l ->
  first_some f (map h l) = first_some g l.
Proof.
  induction 1 as [|x l Hx _ IH]; [reflexivity|]. simpl. rewrite Hx.
  destruct (g x); [reflexivity | exact IH].
Qed.

Lemma first_some_fmap {A B} (g : A -> option B) (h : B -> B) (l : list A) :
  first_some (fun x => h <$> g x) l = h <$> first_some g l.
Proof.
  induction l as [|x l IH]; [reflexivity|]. simpl.
  destruct (g x); [reflexivity | exact IH].
Qed.

Lemma nids_alter (f : list string -> list string) (k : nat) (n : Node) :
  nids (alter_classes f k n) = nids n.
Proof.
  induction n as [k' i cl ch IH] using Node_induction. simpl. f_equal.
  induction IH as [|x ch Hx _ IHch]; [reflexivity|]. simpl. now rewrite Hx, IHch.
Qed.

Lemma find_alter (f : list string -> list string) (k k' : nat) (n : Node) :
  find k' (alter_classes f k n) = alter_classes f k <$> find k' n.
Proof.
  induction n as [j i cl ch IH] using Node_induction. simpl.
  destruct (Nat.eqb j k'); [reflexivity|].
  rewrite <- first_some_fmap. now apply first_some_map.
Qed.

Lemma byId_alter (f : list string -> list string) (k : nat) (idv : string) (n : Node) :
  byId idv (alter_classes f k n) = alter_classes f k <$> byId idv n.
Proof.
  induction n as [j i cl ch IH] using Node_induction. simpl.
  destruct (String.eqb i idv); [reflexivity|].
  rewrite <- first_some_fmap. now apply first_some_map.
Qed.

Lemma alter_absent (f : list string -> list string) (k : nat) (n : Node) :
  ~ In k (nids n) -> alter_classes f k n = n.
Proof.
  induction n as [j i cl ch IH] using Node_induction. simpl. intros Hk.
  destruct (Nat.eqb_spec j k) as [->|_]; [tauto|]. f_equal.
  assert (Hch : ~ In k (flat_map nids ch)) by tauto. clear Hk.
  induction IH as [|x ch Hx _ IHch]; [reflexivity|]. simpl in *.
  rewrite in_app_iff in Hch. rewrite Hx, IHch; tauto.
Qed.

Lemma alter_alter (f g : list string -> list string) (k : nat) (n : Node) :
  alter_classes g k (alter_classes f k n) = alter_classes (fun cl => g (f cl)) k n.
Proof.
  induction n as [j i cl ch IH] using Node_induction. simpl.
  destruct (Nat.eqb j k); f_equal; rewrite map_map;
    (induction IH as [|x ch Hx _ IHch]; [reflexivity|]; simpl; now rewrite Hx, IHch).
Qed.

Lemma alter_ext (f g : list string -> list string) (k : nat) (n : Node) :
  (forall cl, f cl = g cl) -> alter_classes f k n = alter_classes g k n.
Proof.
  intros Hfg. induction n as [j i cl ch IH] using Node_induction. simpl.
  rewrite Hfg. f_equal.
  induction IH as [|x ch Hx _ IHch]; [reflexivity|]. simpl. now rewrite Hx, IHch.
Qed.

Lemma find_nid (k : nat) (n m : Node) : find k n = Some m -> nid_of m = k.
Proof.
  induction n as [j i cl ch IH] using Node_induction. simpl.
  destruct (Nat.eqb_spec j k) as [->|_]; [now intros [= <-]|].
  induction IH as [|x ch Hx _ IHch]; [discriminate|]. simpl.
  destruct (find k x); [intros [= <-]; now apply Hx | exact IHch].
Qed.

Lemma classes_at_alter (f : list string -> list string) (k : nat) (doc : Node) :
  classes_at k (alter_classes f k doc) = f <$> classes_at k doc.
Proof.
  unfold classes_at. rewrite find_alter.
  destruct (find k doc) as [m|] eqn:Hm; [|reflexivity]. simpl.
  apply find_nid in Hm. destruct m as [j i cl ch]. simpl in *. subst j.
  now rewrite Nat.eqb_refl.
Qed.

Lemma first_some_None {A B} (f : A -> option B) (l : list A) :
  first_some f l = None <-> Forall (fun x => f x = None) l.
Proof.
  induction l as [|x l IH]; simpl; [split; [constructor | reflexivity]|].
  destruct (f x) eqn:Hx.
  - split; [discriminate | intros HF; inversion HF; congruence].
  - rewrite IH. split; [now constructor | intros HF; now inversion HF].
Qed.

Lemma in_flat_map_nids (x : Node) (ch : list Node) (k : nat) :
  In x ch -> In k (nids x) -> In k (flat_map nids ch).
Proof. intros Hx Hk. apply in_flat_map. now exists x. Qed.

Lemma subtree_nids (n m : Node) :
  In m (subtrees n) -> incl (nids m) (nids n).
Proof.
  induction n as [k i cl ch IH] using Node_induction.
  intros [<-|Hm]; [apply incl_refl|].
  apply in_flat_map in Hm as (x & Hx & Hm).
  rewrite List.Forall_forall in IH. intros j Hj. right.
  apply (in_flat_map_nids x ch j Hx). now apply (IH x Hx Hm).
Qed.

Lemma nid_in_nids (n : Node) : In (nid_of n) (nids n).
Proof. destruct n. now left. Qed.

Lemma children_subtree_nids (ch : list Node) (m : Node) :
  In m (flat_map subtrees ch) -> incl (nids m) (flat_map nids ch).
Proof.
  intros Hm. apply in_flat_map in Hm as (x & Hx & Hm). intros j Hj.
  apply (in_flat_map_nids x ch j Hx). now apply (subtree_nids x m Hm).
Qed.

Lemma find_None (k : nat) (n : Node) : find k n = None <-> ~ In k (nids n).
Proof.
  induction n as [j i cl ch IH] using Node_induction. simpl.
  destruct (Nat.eqb_spec j k) as [->|Hne].
  - split; [discriminate | tauto].
  - rewrite first_some_None. split.
    + intros HF [Heq|Hin]; [congruence|].
      apply in_flat_map in Hin as (x & Hx & Hin).
      rewrite List.Forall_forall in IH, HF. now apply (proj1 (IH x Hx) (HF x Hx)).
    + intros Hk. apply List.Forall_forall. intros x Hx.
      rewrite List.Forall_forall in IH. apply (IH x Hx). intros Hin.
      apply Hk. right. now apply (in_flat_map_nids x ch k Hx).
Qed.

Lemma byId_subtree (idv : string) (n m : Node) :
  byId idv n = Some m -> In m (subtrees n) /\ id_of m = idv.
Proof.
  induction n as [j i cl ch IH] using Node_induction. simpl.
  destruct (String.eqb_spec i idv) as [->|_].
  - intros [= <-]. split; [now left | reflexivity].
  - intros Hm.
    enough (In m (flat_map subtrees ch) /\ id_of m = idv) by tauto.
    induction IH as [|x ch Hx _ IHch]; [discriminate|]. simpl in Hm |- *.
    destruct (byId idv x) as [y|].
    + injection Hm as ->. destruct (Hx eq_refl). rewrite in_app_iff. tauto.
    + destruct (IHch Hm). rewrite in_app_iff. tauto.
Qed.

Lemma keep_prune_absent (c : nat) (ch : list Node) :
  Forall (fun x => ~ In c (nids x) -> prune c x = x) ch ->
  ~ In c (flat_map nids ch) ->
  keep_map (fun x => if Nat.eqb (nid_of x) c then None else Some (prune c x)) ch = ch.
Proof.
  induction 1 as [|x ch Hx _ IH]; [reflexivity|]. simpl. intros Hc.
  rewrite in_app_iff in Hc.
  destruct (Nat.eqb_spec (nid_of x) c) as [<-|_].
  - exfalso. apply Hc. left. apply nid_in_nids.
  - rewrite Hx, IH; tauto.
Qed.

Lemma prune_absent (c : nat) (n : Node) : ~ In c (nids n) -> prune c n = n.
Proof.
  induction n as [j i cl ch IH] using Node_induction. simpl. intros Hc.
  f_equal. apply keep_prune_absent; tauto.
Qed.

Lemma map_graft_absent (p : nat) (sub : Node) (ch : list Node) :
  Forall (fun x => ~ In p (nids x) -> graft p sub x = x) ch ->
  ~ In p (flat_map nids ch) -> map (graft p sub) ch = ch.
Proof.
  induction 1 as [|x ch Hx _ IH]; [reflexivity|]. simpl. intros Hp.
  rewrite in_app_iff in Hp. rewrite Hx, IH; tauto.
Qed.

Lemma graft_absent (p : nat) (sub : Node) (n : Node) :
  ~ In p (nids n) -> graft p sub n = n.
Proof.
  induction n as [j i cl ch IH] using Node_induction. simpl. intros Hp.
  destruct (Nat.eqb_spec j p) as [->|_]; [tauto|].
  rewrite app_nil_r. f_equal. apply map_graft_absent; tauto.
Qed.

Lemma NoDup_app_inv {A} (l k : list A) :
  NoDup (l ++ k) -> NoDup l /\ NoDup k /\ forall x, In x l -> ~ In x k.
Proof.
  intros H. apply NoDup_app in H as (Hl & Hd & Hk).
  split; [exact Hl|]. split; [exact Hk|]. intros x Hx Hx'.
  apply (Hd x); now apply list_elem_of_In.
Qed.

Lemma NoDup_cons_inv {A} (x : A) (l : list A) :
  NoDup (x :: l) -> ~ In x l /\ NoDup l.
Proof.
  intros H. apply NoDup_cons in H as [Hx Hl]. split; [|exact Hl].
  intros Hin. now apply Hx, list_elem_of_In.
Qed.

(** Taking an element out of a well-formed tree splits the tree's
    elements into those that stay and those of the element's subtree. *)
Lemma prune_children_perm (m : Node) (ch : list Node) :
  Forall (fun n => NoDup (nids n) ->
                   In m (flat_map subtrees (children_of n)) ->
                   Permutation (nids n) (nids (prune (nid_of m) n) ++ nids m)) ch ->
  NoDup (flat_map nids ch) ->
  In m (flat_map subtrees ch) ->
  Permutation (flat_map nids ch)
    (flat_map nids
       (keep_map (fun x => if Nat.eqb (nid_of x) (nid_of m) then None
                           else Some (prune (nid_of m) x)) ch) ++ nids m).
Proof.
  set (c := nid_of m).
  induction 1 as [|x ch Hx Hch IH]; [intros _ []|].
  cbn [flat_map]. intros Hnd Hm.
  apply NoDup_app_inv in Hnd as (Hndx & Hndr & Hdis).
  assert (Habsent : forall r : list Node,
            ~ In c (flat_map nids r) ->
            keep_map (fun y => if Nat.eqb (nid_of y) c then None
                               else Some (prune c y)) r = r).
  { intros r. apply keep_prune_absent. apply List.Forall_forall.
    intros y _. apply prune_absent. }
  apply in_app_iff in Hm as [Hm|Hm].
  - assert (Hcx : In c (nids x)) by (apply (subtree_nids x m Hm), nid_in_nids).
    assert (Hcr : ~ In c (flat_map nids ch)) by now apply Hdis.
    destruct x as [k i cl xch]. destruct Hm as [<-|Hm].
    + cbn [keep_map nid_of]. unfold c at 1. cbn [nid_of]. rewrite Nat.eqb_refl.
      fold c. rewrite (Habsent ch Hcr). apply Permutation_app_comm.
    + assert (Hkc : k <> c).
      { intros ->. cbn [nids] in Hndx. apply NoDup_cons_inv in Hndx as [Hk _].
        apply Hk. apply (children_subtree_nids xch m Hm), nid_in_nids. }
      cbn [keep_map nid_of]. apply Nat.eqb_neq in Hkc. rewrite Hkc.
      cbn [flat_map]. rewrite (Habsent ch Hcr).
      rewrite (Hx Hndx Hm). fold c.
      rewrite <- !app_assoc. apply Permutation_app_head, Permutation_app_comm.
  - assert (Hcr : In c (flat_map nids ch))
      by (apply (children_subtree_nids ch m Hm), nid_in_nids).
    assert (Hcx : ~ In c (nids x)) by (intros Hin; now apply (Hdis c Hin)).
    assert (Hxc : nid_of x <> c) by (intros Heq; apply Hcx; rewrite <- Heq; apply nid_in_nids).
    cbn [keep_map]. apply Nat.eqb_neq in Hxc. rewrite Hxc.
    rewrite (prune_absent c x Hcx). cbn [flat_map].
    rewrite <- app_assoc. apply Permutation_app_head. now apply IH.
Qed.

Lemma prune_perm (n m : Node) :
  NoDup (nids n) ->
  In m (flat_map subtrees (children_of n)) ->
  Permutation (nids n) (nids (prune (nid_of m) n) ++ nids m).
Proof.
  induction n as [k i cl ch IH] using Node_induction.
  cbn [nids children_of prune]. intros Hnd Hm.
  apply NoDup_cons_inv in Hnd as [_ Hnd].
  cbn [app]. apply perm_skip. now apply prune_children_perm.
Qed.

Lemma graft_children_perm (z : nat) (sub : Node) (ch : list Node) :
  Forall (fun n => NoDup (nids n) -> In z (nids n) ->
                   Permutation (nids (graft z sub n)) (nids n ++ nids sub)) ch ->
  NoDup (flat_map nids ch) ->
  In z (flat_map nids ch) ->
  Permutation (flat_map nids (map (graft z sub) ch)) (flat_map nids ch ++ nids sub).
Proof.
  induction 1 as [|x ch Hx Hch IH]; [intros _ []|].
  cbn [flat_map map]. intros Hnd Hz.
  apply NoDup_app_inv in Hnd as (Hndx & Hndr & Hdis).
  apply in_app_iff in Hz as [Hz|Hz].
  - assert (Hzr : ~ In z (flat_map nids ch)) by now apply Hdis.
    rewrite (map_graft_absent z sub ch) by
      (try exact Hzr; apply List.Forall_forall; intros y _; apply graft_absent).
    rewrite (Hx Hndx Hz). rewrite <- !app_assoc.
    apply Permutation_app_head, Permutation_app_comm.
  - assert (Hzx : ~ In z (nids x)) by (intros Hin; now apply (Hdis z Hin)).
    rewrite (graft_absent z sub x Hzx). rewrite <- app_assoc.
    apply Permutation_app_head. now apply IH.
Qed.

(** Adding a subtree under an element of a well-formed tree adds the
    subtree's elements and nothing else. *)
Lemma graft_perm (z : nat) (sub n : Node) :
  NoDup (nids n) -> In z (nids n) ->
  Permutation (nids (graft z sub n)) (nids n ++ nids sub).
Proof.
  induction n as [k i cl ch IH] using Node_induction.
  cbn [nids graft]. intros Hnd Hz.
  apply NoDup_cons_inv in Hnd as [Hk Hnd]. cbn [app]. apply perm_skip.
  rewrite flat_map_app.
  destruct (Nat.eqb_spec k z) as [->|Hne].
  - rewrite (map_graft_absent z sub ch) by
      (try exact Hk; apply List.Forall_forall; intros y _; apply graft_absent).
    cbn [flat_map]. now rewrite app_nil_r.
  - destruct Hz as [Hz|Hz]; [congruence|]. cbn [flat_map]. rewrite app_nil_r.
    now apply graft_children_perm.
Qed.

Lemma subtrees_self (n : Node) : In n (subtrees n).
Proof. destruct n. now left. Qed.

Lemma find_graft (z : nat) (sub n zn : Node) :
  NoDup (nids n) -> find z n = Some zn ->
  find z (graft z sub n) =
  Some (El z (id_of zn) (classes_of zn) (children_of zn ++ [sub])).
Proof.
  revert zn. induction n as [k i cl ch IH] using Node_induction.
  intros zn Hnd. cbn [nids] in Hnd. apply NoDup_cons_inv in Hnd as [Hk Hnd].
  cbn [find graft]. destruct (Nat.eqb_spec k z) as [->|Hne].
  - intros [= <-]. cbn [id_of classes_of children_of].
    rewrite (map_graft_absent z sub ch) by
      (try exact Hk; apply List.Forall_forall; intros y _; apply graft_absent).
    reflexivity.
  - rewrite app_nil_r. clear Hk.
    induction IH as [|x ch Hx _ IHch]; [discriminate|].
    cbn [flat_map] in Hnd. apply NoDup_app_inv in Hnd as (Hndx & Hndr & _).
    cbn [map first_some]. destruct (find z x) as [y|] eqn:Hfx.
    + intros [= <-]. now rewrite (Hx y Hndx eq_refl).
    + intros Hzn. apply find_None in Hfx as Hzx.
      rewrite (graft_absent z sub x Hzx), Hfx. now apply IHch.
Qed.

Lemma find_prune (z c : nat) (n : Node) :
  (forall m, In m (subtrees n) -> nid_of m = c -> ~ In z (nids m)) ->
  find z (prune c n) = prune c <$> find z n.
Proof.
  induction n as [k i cl ch IH] using Node_induction. intros H.
  cbn [find prune]. destruct (Nat.eqb k z); [reflexivity|].
  assert (Hch : forall m, In m (flat_map subtrees ch) -> nid_of m = c ->
                          ~ In z (nids m))
    by (intros m Hm; apply H; now right).
  clear H. induction IH as [|x ch Hx _ IHch]; [reflexivity|].
  cbn [flat_map] in Hch.
  assert (Hr : forall m, In m (flat_map subtrees ch) -> nid_of m = c ->
                         ~ In z (nids m))
    by (intros m Hm; apply Hch, in_app_iff; now right).
  assert (Hxs : forall m, In m (subtrees x) -> nid_of m = c -> ~ In z (nids m))
    by (intros m Hm; apply Hch, in_app_iff; now left).
  cbn [keep_map first_some]. destruct (Nat.eqb_spec (nid_of x) c) as [Heq|Hne].
  - assert (Hfx : find z x = None)
      by (apply find_None, (Hxs x (subtrees_self x) Heq)).
    rewrite Hfx. now apply IHch.
  - cbn [first_some]. rewrite (Hx Hxs).
    destruct (find z x); [reflexivity | now apply IHch].
Qed.

Lemma children_subtree_unique (ch : list Node) (m m' : Node) :
  Forall (fun n => NoDup (nids n) -> In m (subtrees n) -> In m' (subtrees n) ->
                   nid_of m = nid_of m' -> m = m') ch ->
  NoDup (flat_map nids ch) ->
  In m (flat_map subtrees ch) -> In m' (flat_map subtrees ch) ->
  nid_of m = nid_of m' -> m = m'.
Proof.
  induction 1 as [|x ch Hx _ IH]; [intros _ []|].
  cbn [flat_map]. intros Hnd Hm Hm' Heq.
  apply NoDup_app_inv in Hnd as (Hndx & Hndr & Hdis).
  apply in_app_iff in Hm as [Hm|Hm]; apply in_app_iff in Hm' as [Hm'|Hm'].
  - now apply Hx.
  - exfalso. apply (Hdis (nid_of m)).
    + apply (subtree_nids x m Hm), nid_in_nids.
    + rewrite Heq. apply (children_subtree_nids ch m' Hm'), nid_in_nids.
  - exfalso. apply (Hdis (nid_of m')).
    + apply (subtree_nids x m' Hm'), nid_in_nids.
    + rewrite <- Heq. apply (children_subtree_nids ch m Hm), nid_in_nids.
  - now apply IH.
Qed.

(** In a well-formed tree an element is determined by its identity. *)
Lemma subtree_unique (n m m' : Node) :
  NoDup (nids n) -> In m (subtrees n) -> In m' (subtrees n) ->
  nid_of m = nid_of m' -> m = m'.
Proof.
  induction n as [k i cl ch IH] using Node_induction.
  intros Hnd. cbn [nids] in Hnd. apply NoDup_cons_inv in Hnd as [Hk Hnd].
  intros [<-|Hm] [<-|Hm'] Heq.
  - reflexivity.
  - exfalso. apply Hk. cbn [nid_of] in Heq. rewrite Heq.
    apply (children_subtree_nids ch m' Hm'), nid_in_nids.
  - exfalso. apply Hk. cbn [nid_of] in Heq. rewrite <- Heq.
    apply (children_subtree_nids ch m Hm), nid_in_nids.
  - now apply (children_subtree_unique ch m m').
Qed.

Lemma existsb_nid (z : nat) (l : list nat) :
  existsb (Nat.eqb z) l = true <-> In z l.
Proof.
  rewrite existsb_exists. split.
  - intros (x & Hx & Heq). apply Nat.eqb_eq in Heq. now subst.
  - intros Hz. exists z. split; [exact Hz | apply Nat.eqb_refl].
Qed.

End DomFacts.

(** ** Drag and drop *)

Section DragDropFacts.
Import Dom.

Lemma subtree_proper (n m : Node) :
  In m (subtrees n) -> m = n \/ In m (flat_map subtrees (children_of n)).
Proof. destruct n. intros [<-|Hm]; [now left | now right]. Qed.

Lemma classes_of_prune (c : nat) (n : Node) : classes_of (prune c n) = classes_of n.
Proof. now destruct n. Qed.

Lemma find_Some_in (z : nat) (n : Node) : In z (nids n) -> exists zn, find z n = Some zn.
Proof.
  intros Hz. destruct (find z n) as [zn|] eqn:Hf; [now exists zn|].
  now apply find_None in Hf.
Qed.

Lemma drop_lookup (zone : nat) (data : string) (doc item : Node) :
  getElementById data doc = Some item ->
  getElementById data (alter_classes (ClassList.remove "drag-over") zone doc) =
  Some (alter_classes (ClassList.remove "drag-over") zone item).
Proof.
  unfold getElementById. destruct (JS.truthy data); [|discriminate].
  intros Hb. now rewrite byId_alter, Hb.
Qed.

Lemma drop_lookup_none (zone : nat) (data : string) (doc : Node) :
  getElementById data doc = None ->
  getElementById data (alter_classes (ClassList.remove "drag-over") zone doc) = None.
Proof.
  unfold getElementById. destruct (JS.truthy data); [|reflexivity].
  intros Hb. now rewrite byId_alter, Hb.
Qed.

End DragDropFacts.

(** X19.  A drop moves the element the data names.  In a well-formed
    document, when the data is the id of an element that neither is the
    zone nor contains it, [_handleDrop] returns; afterwards the element,
    with its subtree as it was, is the last child of the zone, the zone
    has lost [drag-over], and the document has exactly the elements it
    had: none is lost, none appears twice. *)
Theorem drop_moves_the_element (st : Dom.DragDrop) (zone : nat) (data : string)
    (item : Dom.Node) :
  Dom.well_formed (Dom.document st) ->
  In zone (Dom.nids (Dom.document st)) ->
  Dom.getElementById data (Dom.document st) = Some item ->
  ~ In zone (Dom.nids item) ->
  exists doc',
    Dom.handleDrop zone data st = Dom.Returned (Dom.with_document doc' st) /\
    Dom.well_formed doc' /\
    Permutation (Dom.nids doc') (Dom.nids (Dom.document st)) /\
    exists zid zcl zch,
      Dom.find zone doc' = Some (Dom.El zone zid zcl (zch ++ [item])) /\
      ClassList.contains "drag-over" zcl = false.
Proof.
  intros Hwf Hz Hget Hnz. unfold Dom.handleDrop.
  set (doc1 := Dom.alter_classes (ClassList.remove "drag-over") zone (Dom.document st)).
  assert (Hget1 : Dom.getElementById data doc1 = Some item).
  { unfold doc1. rewrite (drop_lookup zone data _ item Hget).
    now rewrite alter_absent. }
  rewrite Hget1. unfold Dom.appendChild.
  destruct (existsb (Nat.eqb zone) (Dom.nids item)) eqn:Hex;
    [now apply existsb_nid in Hex|].
  set (c := Dom.nid_of item).
  exists (Dom.graft zone item (Dom.prune c doc1)). split; [reflexivity|].
  assert (Hn1 : Dom.nids doc1 = Dom.nids (Dom.document st)) by apply nids_alter.
  assert (Hwf1 : NoDup (Dom.nids doc1)) by (rewrite Hn1; exact Hwf).
  assert (Hz1 : In zone (Dom.nids doc1)) by (rewrite Hn1; exact Hz).
  assert (Hsub : In item (Dom.subtrees doc1)).
  { unfold Dom.getElementById in Hget1. destruct (JS.truthy data); [|discriminate].
    now apply byId_subtree in Hget1. }
  assert (Hproper : In item (flat_map Dom.subtrees (Dom.children_of doc1))).
  { destruct (subtree_proper doc1 item Hsub) as [Heq|H]; [|exact H].
    exfalso. apply Hnz. now rewrite Heq. }
  pose proof (prune_perm doc1 item Hwf1 Hproper) as Hp1. fold c in Hp1.
  assert (Hwfp : NoDup (Dom.nids (Dom.prune c doc1))).
  { rewrite Hp1 in Hwf1. now apply NoDup_app_inv in Hwf1. }
  assert (Hzp : In zone (Dom.nids (Dom.prune c doc1))).
  { apply (Permutation_in _ Hp1), in_app_iff in Hz1. tauto. }
  pose proof (graft_perm zone item _ Hwfp Hzp) as Hp2.
  assert (Hperm : Permutation (Dom.nids (Dom.graft zone item (Dom.prune c doc1)))
                              (Dom.nids (Dom.document st))).
  { rewrite Hp2, <- Hp1. now rewrite Hn1. }
  split; [unfold Dom.well_formed; now rewrite Hperm|]. split; [exact Hperm|].
  destruct (find_Some_in zone doc1 Hz1) as [zn Hzn].
  assert (Hfp : Dom.find zone (Dom.prune c doc1) = Some (Dom.prune c zn)).
  { rewrite find_prune; [now rewrite Hzn|].
    intros m Hm Hmc. now rewrite (subtree_unique doc1 m item Hwf1 Hm Hsub Hmc). }
  rewrite (find_graft zone item _ _ Hwfp Hfp).
  eexists _, _, _. split; [reflexivity|]. rewrite classes_of_prune.
  assert (Hcl : Dom.classes_at zone doc1 = Some (Dom.classes_of zn))
    by (unfold Dom.classes_at; now rewrite Hzn).
  unfold doc1 in Hcl. rewrite classes_at_alter in Hcl.
  destruct (Dom.classes_at zone (Dom.document st)) as [cl|]; [|discriminate].
  injection Hcl as <-. apply contains_remove.
Qed.

(** X20.  A drop whose data names no element (the empty string, or an
    id nothing in the document has) does what leaving the zone does: the
    zone loses [drag-over], nothing moves, and the handler returns. *)
Theorem drop_of_unknown_id_is_a_leave (st : Dom.DragDrop) (zone : nat) (data : string) :
  Dom.getElementById data (Dom.document st) = None ->
  Dom.handleDrop zone data st = Dom.Returned (Dom.handleDragLeave zone st) /\
  Dom.handleDrop zone EmptyString st = Dom.Returned (Dom.handleDragLeave zone st) /\
  Dom.nids (Dom.document (Dom.handleDragLeave zone st)) = Dom.nids (Dom.document st).
Proof.
  intros Hget. unfold Dom.handleDrop.
  rewrite (drop_lookup_none zone data _ Hget). split; [reflexivity|].
  split; [reflexivity | apply nids_alter].
Qed.

(** X21.  A drop whose data names the zone itself, or an element that
    contains the zone, is refused: [appendChild] throws
    [HierarchyRequestError] out of the handler, and nothing has changed
    but the zone's [drag-over] class, which was removed before. *)
Theorem drop_onto_own_descendant_throws (st : Dom.DragDrop) (zone : nat)
    (data : string) (item : Dom.Node) :
  Dom.getElementById data (Dom.document st) = Some item ->
  In zone (Dom.nids item) ->
  Dom.handleDrop zone data st =
  Dom.Threw "HierarchyRequestError" (Dom.handleDragLeave zone st).
Proof.
  intros Hget Hz. unfold Dom.handleDrop.
  rewrite (drop_lookup zone data _ item Hget). unfold Dom.appendChild.
  rewrite nids_alter. now rewrite (proj2 (existsb_nid zone (Dom.nids item)) Hz).
Qed.

Section DragFacts.
Import Dom.

Lemma find_subtree (k : nat) (n m : Node) : find k n = Some m -> In m (subtrees n).
Proof.
  induction n as [j i cl ch IH] using Node_induction. cbn [find subtrees].
  destruct (Nat.eqb j k); [intros [= <-]; now left|]. intros Hm. right.
  induction IH as [|x ch Hx _ IHch]; [discriminate|]. cbn [first_some flat_map] in *.
  apply in_app_iff. destruct (find k x); [left; apply Hx; congruence | right; now apply IHch].
Qed.

Lemma alter_fixed_everywhere (f : list string -> list string) (k : nat) (n : Node) :
  (forall m, In m (subtrees n) -> nid_of m = k -> f (classes_of m) = classes_of m) ->
  alter_classes f k n = n.
Proof.
  induction n as [j i cl ch IH] using Node_induction. intros H. cbn [alter_classes].
  assert (Hcl : (if Nat.eqb j k then f cl else cl) = cl).
  { destruct (Nat.eqb_spec j k) as [Heq|_]; [|reflexivity].
    exact (H (El j i cl ch) (subtrees_self _) Heq). }
  rewrite Hcl. f_equal.
  assert (Hch : forall m, In m (flat_map subtrees ch) -> nid_of m = k ->
                          f (classes_of m) = classes_of m)
    by (intros m Hm; apply H; now right).
  clear H Hcl. induction IH as [|x ch Hx _ IHch]; [reflexivity|].
  cbn [map flat_map] in *. rewrite Hx, IHch; [reflexivity| |];
    intros m Hm; apply Hch, in_app_iff; tauto.
Qed.

(** In a well-formed tree, a change that leaves the class list of
    element [k] as it is leaves the tree as it is. *)
Lemma alter_fixed (f : list string -> list string) (k : nat) (doc : Node)
    (cl : list string) :
  NoDup (nids doc) -> classes_at k doc = Some cl -> f cl = cl ->
  alter_classes f k doc = doc.
Proof.
  intros Hwf Hcl Hf. unfold classes_at in Hcl.
  destruct (find k doc) as [zn|] eqn:Hzn; [|discriminate]. injection Hcl as <-.
  apply alter_fixed_everywhere. intros m Hm Hk.
  rewrite (subtree_unique doc m zn Hwf Hm (find_subtree k doc zn Hzn)); [exact Hf|].
  rewrite Hk. symmetry. now apply (find_nid k doc).
Qed.

Lemma hovers_classes (zone : nat) (hs : list hover) (st : DragDrop) (cl : list string) :
  classes_at zone (document st) = Some cl ->
  exists cl', classes_at zone (document (hovers zone hs st)) = Some cl'.
Proof.
  revert st cl. induction hs as [|h hs IH]; intros st cl Hcl; [now exists cl|].
  unfold hovers. cbn [fold_left]. fold (hovers zone hs (onHover zone st h)).
  destruct h; cbn [onHover];
    (eapply IH; unfold handleDragEnter, handleDragLeave;
     cbn [document with_document]; rewrite classes_at_alter, Hcl; reflexivity).
Qed.

End DragFacts.

(** X22.  The [dragging] class of an item that does not have it yet, in
    a well-formed document.  [_handleDragStart] does not add it; the
    timer it sets does, at the end of the item's class list;
    [_handleDragEnd] after the timer restores the document exactly and
    forgets the item.  Should [_handleDragEnd] run before the timer, the
    document is as it was and the timer's function throws a [TypeError],
    for [this.currentDragItem] is [null] by then. *)
Theorem dragging_class_round_trip (st : Dom.DragDrop) (item : nat) (cl : list string) :
  Dom.well_formed (Dom.document st) ->
  Dom.classes_at item (Dom.document st) = Some cl ->
  ClassList.contains "dragging" cl = false ->
  let st1 := fst (Dom.handleDragStart item st) in
  let ended := {| Dom.document := Dom.document st; Dom.currentDragItem := None |} in
  Dom.document st1 = Dom.document st /\
  (exists st2,
     Dom.dragTimer st1 = Dom.Returned st2 /\
     Dom.classes_at item (Dom.document st2) = Some (cl ++ ["dragging"])%list /\
     Dom.handleDragEnd st2 = ended) /\
  Dom.handleDragEnd st1 = ended /\
  Dom.dragTimer (Dom.handleDragEnd st1) = Dom.Threw "TypeError" ended.
Proof.
  intros Hwf Hcl Hnot st1 ended.
  assert (Hrm : Dom.alter_classes (ClassList.remove "dragging") item (Dom.document st)
                = Dom.document st)
    by (apply (alter_fixed _ _ _ cl Hwf Hcl); now apply remove_absent).
  split; [reflexivity|]. split; [|split].
  - eexists. split; [reflexivity|]. cbn [Dom.document Dom.with_document st1 fst
                                         Dom.handleDragStart].
    split.
    + rewrite classes_at_alter, Hcl. cbn. unfold ClassList.add. now rewrite Hnot.
    + unfold Dom.handleDragEnd.
      cbn [Dom.currentDragItem Dom.document Dom.with_document].
      rewrite alter_alter.
      rewrite (alter_ext _ (ClassList.remove "dragging") item _
                 (fun l => remove_add "dragging" l)).
      now rewrite Hrm.
  - unfold Dom.handleDragEnd, st1. cbn. now rewrite Hrm.
  - unfold Dom.handleDragEnd, st1. cbn [fst Dom.handleDragStart Dom.currentDragItem
                                       Dom.document]. now rewrite Hrm.
Qed.

(** X23.  The highlight of a drop zone follows the last event only:
    after any sequence of [dragenter] and [dragleave] events on the zone,
    it has [drag-over] exactly if the last one was a [dragenter], however
    many of each came before. *)
Theorem highlight_follows_last_hover (st : Dom.DragDrop) (zone : nat)
    (hs : list Dom.hover) (h : Dom.hover) (cl : list string) :
  Dom.classes_at zone (Dom.document st) = Some cl ->
  exists cl',
    Dom.classes_at zone (Dom.document (Dom.hovers zone (hs ++ [h]) st)) = Some cl' /\
    ClassList.contains "drag-over" cl' =
      match h with Dom.Enter => true | Dom.Leave => false end.
Proof.
  intros Hcl. destruct (hovers_classes zone hs st cl Hcl) as [cl1 Hcl1].
  unfold Dom.hovers in *. rewrite fold_left_app. cbn [fold_left].
  set (st' := fold_left (Dom.onHover zone) hs st) in *.
  destruct h; cbn [Dom.onHover Dom.handleDragEnter Dom.handleDragLeave
                   Dom.document Dom.with_document];
    rewrite classes_at_alter, Hcl1; eexists; (split; [reflexivity|]).
  - apply contains_add.
  - apply contains_remove.
Qed.

(** X24.  What a drag carries is the item's [id], and a drop looks that
    id up in the whole document: an item without an [id] can be dragged
    but a drop of it moves nothing and only clears the zone's highlight. *)
Theorem item_without_id_is_not_moved (st : Dom.DragDrop) (item zone : nat)
    (n : Dom.Node) :
  Dom.find item (Dom.document st) = Some n ->
  Dom.id_of n = EmptyString ->
  let '(st1, data) := Dom.handleDragStart item st in
  data = EmptyString /\
  Dom.handleDrop zone data st1 = Dom.Returned (Dom.handleDragLeave zone st1) /\
  Dom.nids (Dom.document (Dom.handleDragLeave zone st1)) = Dom.nids (Dom.document st).
Proof.
  intros Hn Hid. unfold Dom.handleDragStart. rewrite Hn, Hid.
  split; [reflexivity|]. split; [reflexivity|]. apply nids_alter.
Qed.

(** ** Further properties of the event loop and of the sort *)

Section Sessions.
Context `{host : Host}.

Lemma showLoading_apart (s s0 : BlogList) :
  idle s -> apart_from_controls s = apart_from_controls s0 ->
  idle (state_of (showLoading s)) /\
  apart_from_controls (state_of (showLoading s)) =
  apart_from_controls (state_of (showLoading s0)).
Proof.
  intros Hi He. split; [exact Hi|].
  change (set_loadingIndicator
            (with_hidden false <$> loadingIndicator (apart_from_controls s))
            (apart_from_controls s) =
          set_loadingIndicator
            (with_hidden false <$> loadingIndicator (apart_from_controls s0))
            (apart_from_controls s0)).
  now rewrite He.
Qed.

Lemma unsettled_inert (s0 : BlogList) (x : phase * BlogList) :
  idle s0 ->
  rtc step (Created, s0) x ->
  x.1 <> Settled ->
  idle x.2 /\ apart_from_controls x.2 = apart_from_controls (unsettled s0 x.1).
Proof.
  intros Hi Hr. revert x Hr.
  apply (rtc_ind_r (fun x => x.1 <> Settled ->
           idle x.2 /\
           apart_from_controls x.2 = apart_from_controls (unsettled s0 x.1))).
  - now split.
  - intros y z _ Hstep IH. inversion Hstep as [s|s res|ph s ev]; subst; cbn [fst snd] in *; intros Hph.
    + destruct IH as [Hi' He]; [discriminate|].
      now apply showLoading_apart.
    + now contradict Hph.
    + destruct (IH Hph) as [Hi' He].
      destruct (handle_idle ev s Hi') as [Hi'' He']. split; [exact Hi''|].
      now rewrite He'.
Qed.

Lemma onControlChange_state (s : BlogList) (si fs ss lc : Element) :
  searchInput s = Some si -> filterSelect s = Some fs ->
  sortSelect s = Some ss -> listContainer s = Some lc ->
  recomputed_view (set_page 1 s) (state_of (onControlChange s)).
Proof.
  intros Hsi Hfs Hss Hlc.
  pose proof (applyFiltersAndSorting_hoare (set_page 1 s) _ eq_refl) as Hh.
  change (onControlChange s) with (applyFiltersAndSorting (set_page 1 s)).
  destruct (applyFiltersAndSorting (set_page 1 s)) as [[] s'|e s']; [exact Hh|].
  exfalso. destruct Hh as [_ Hm]. unfold missing_element in Hm.
  cbn [searchInput filterSelect sortSelect listContainer set_page] in Hm.
  intuition congruence.
Qed.

Lemma recompute_display_current (data : list Blog) (s : BlogList)
    (si fs ss lc : Element) :
  listening s = true -> perPage s = 10 -> heap s !! items s = Some data ->
  searchInput s = Some si -> filterSelect s = Some fs ->
  sortSelect s = Some ss -> listContainer s = Some lc ->
  let s' := state_of (onControlChange s) in
  searchTimer s' = searchTimer s /\
  display_current data (set_searchTimer false s').
Proof.
  intros Hl Hpp Hit Hsi Hfs Hss Hlc s'.
  destruct (onControlChange_state s si fs ss lc Hsi Hfs Hss Hlc)
    as (si' & fs' & ss' & lc' & wl & h' & Hsi' & Hfs' & Hss' & Hlc'
        & Hext & Hwl & Hview & Hs').
  cbn [searchInput filterSelect sortSelect listContainer set_page heap items
       page perPage] in *.
  assert (si' = si) as -> by congruence. assert (fs' = fs) as -> by congruence.
  assert (ss' = ss) as -> by congruence. assert (lc' = lc) as -> by congruence.
  fold s' in Hs'. rewrite Hs'. split; [reflexivity|].
  rewrite (contents_lookup _ _ _ Hit) in Hview.
  assert (items s ∈ dom (heap s)) as Hdom
    by (apply elem_of_dom; rewrite Hit; eauto).
  split; [exact Hl|]. split; [exact Hpp|]. split.
  - cbn. rewrite (Hext _ Hdom). exact Hit.
  - eexists si, fs, ss, _. split; [exact Hsi|]. split; [exact Hfs|].
    split; [exact Hss|]. split; [reflexivity|].
    cbn [heap filteredItems set_searchTimer set_listContainer
         set_filteredItems set_heap text with_text].
    rewrite (contents_lookup _ _ _ Hview). split; [|reflexivity].
    rewrite (contents_lookup _ _ _ Hit), Hpp. unfold renderSlice.
    now rewrite slice0_nonneg by lia.
Qed.

Lemma display_current_timer (data : list Blog) (s : BlogList) (b : bool) :
  display_current data (set_searchTimer false s) ->
  display_current data (set_searchTimer b s).
Proof.
  intros (Hl & Hpp & Hit & si & fs & ss & lc & Hsi & Hfs & Hss & Hlc & Ht & Hv).
  split; [exact Hl|]. split; [exact Hpp|]. split; [exact Hit|].
  exists si, fs, ss, lc. split; [exact Hsi|]. split; [exact Hfs|].
  split; [exact Hss|]. split; [exact Hlc|]. split; [exact Ht|].
  intros _. now apply Hv.
Qed.

Lemma set_searchTimer_same (s : BlogList) : set_searchTimer (searchTimer s) s = s.
Proof. now destruct s. Qed.

Lemma handle_display_current (data : list Blog) (ev : event) (s : BlogList) :
  display_current data s -> display_current data (handle ev s).
Proof.
  intros Hd.
  pose proof Hd as (Hl & Hpp & Hit & si & fs & ss & lc & Hsi & Hfs & Hss & Hlc
                    & Ht & Hv).
  destruct ev as [v|v|v|]; cbn [handle].
  - rewrite Hss. cbn [listening set_sortSelect]. rewrite Hl.
    destruct (recompute_display_current data
                (set_sortSelect (Some (with_value v ss)) s) si fs
                (with_value v ss) lc Hl Hpp Hit Hsi Hfs eq_refl Hlc) as [Hst Hd'].
    rewrite <- (set_searchTimer_same (state_of _)).
    now apply display_current_timer.
  - rewrite Hfs. cbn [listening set_filterSelect]. rewrite Hl.
    destruct (recompute_display_current data
                (set_filterSelect (Some (with_value v fs)) s) si
                (with_value v fs) ss lc Hl Hpp Hit Hsi eq_refl Hss Hlc) as [Hst Hd'].
    rewrite <- (set_searchTimer_same (state_of _)).
    now apply display_current_timer.
  - rewrite Hsi. cbn [listening set_searchInput]. rewrite Hl.
    split; [exact Hl|]. split; [exact Hpp|]. split; [exact Hit|].
    exists (with_value v si), fs, ss, lc.
    split; [reflexivity|]. split; [exact Hfs|]. split; [exact Hss|].
    split; [exact Hlc|]. split; [exact Ht|]. discriminate.
  - destruct (searchTimer s) eqn:Hst; [|exact Hd].
    destruct (recompute_display_current data (set_searchTimer false s)
                si fs ss lc Hl Hpp Hit Hsi Hfs Hss Hlc) as [Hst' Hd'].
    rewrite <- (set_searchTimer_same (state_of _)). rewrite Hst'.
    exact Hd'.
Qed.

Lemma run_display_current (data : list Blog) (evs : list event) (s : BlogList) :
  display_current data s -> display_current data (run evs s).
Proof.
  revert s. induction evs as [|ev evs IH]; intros s Hd; [exact Hd|].
  rewrite run_cons. apply IH. now apply handle_display_current.
Qed.

Lemma init_display_current (status : Z) (data : list Blog) (s : BlogList)
    (si fs ss lc : Element) :
  ok status = true ->
  searchInput s = Some si -> filterSelect s = Some fs ->
  sortSelect s = Some ss -> listContainer s = Some lc ->
  page s = 1 -> perPage s = 10 ->
  display_current data (state_of (init (Response status (JsonArray data)) s)).
Proof.
  intros Hok Hsi Hfs Hss Hlc Hpg Hpp. rewrite (init_success status data s Hok).
  set (s3 := set_listening true _).
  assert (Hitems : heap s3 !! items s3 = Some data) by apply lookup_insert_eq.
  pose proof (applyFiltersAndSorting_hoare s3 s3 eq_refl) as Hh.
  unfold try_finally, try_catch.
  destruct (applyFiltersAndSorting s3) as [[] s4|e s4].
  - destruct Hh as (si' & fs' & ss' & lc' & wl & h' & Hsi' & Hfs' & Hss' & Hlc'
                    & Hext & Hwl & Hview & ->).
    change (searchInput s3) with (searchInput s) in Hsi'.
    change (filterSelect s3) with (filterSelect s) in Hfs'.
    change (sortSelect s3) with (sortSelect s) in Hss'.
    change (listContainer s3) with (listContainer s) in Hlc'.
    change (page s3) with (page s) in *. change (perPage s3) with (perPage s) in *.
    assert (si' = si) as -> by congruence. assert (fs' = fs) as -> by congruence.
    assert (ss' = ss) as -> by congruence. assert (lc' = lc) as -> by congruence.
    rewrite (contents_lookup _ _ _ Hitems) in Hview.
    assert (items s3 ∈ dom (heap s3)) as Hdom
      by (apply elem_of_dom; rewrite Hitems; eauto).
    split; [reflexivity|]. split; [exact Hpp|]. split.
    + change (h' !! items s3 = Some data). rewrite (Hext _ Hdom). exact Hitems.
    + exists si, fs, ss. eexists. split; [exact Hsi|]. split; [exact Hfs|].
      split; [exact Hss|]. split; [reflexivity|].
      change (contents (heap _) (filteredItems _)) with (contents h' wl).
      rewrite (contents_lookup _ _ _ Hview). split; [|reflexivity].
      cbn [text with_text]. rewrite (contents_lookup _ _ _ Hitems), Hpg, Hpp.
      unfold renderSlice. now rewrite slice0_nonneg by lia.
  - exfalso. destruct Hh as [_ Hm]. unfold missing_element in Hm.
    change (searchInput s3) with (searchInput s) in Hm.
    change (filterSelect s3) with (filterSelect s) in Hm.
    change (sortSelect s3) with (sortSelect s) in Hm.
    change (listContainer s3) with (listContainer s) in Hm.
    intuition congruence.
Qed.

End Sessions.

(** X25.  Until the request settles no listener exists: whatever events
    arrive between construction and the settling of the request, before
    or after the call of [init], the component differs from the freshly
    constructed one only in the values of the controls and, once [init]
    has been called, in the loading indicator being shown. *)
Theorem controls_are_dead_until_settled `{Host}
    (lc li ec ss fs si : option Element) (ph : phase) (s : BlogList) :
  rtc step (Created, constructor lc li ec ss fs si) (ph, s) ->
  ph <> Settled ->
  idle s /\
  apart_from_controls s =
  apart_from_controls (unsettled (constructor lc li ec ss fs si) ph).
Proof.
  intros Hr Hph.
  apply (unsettled_inert (constructor lc li ec ss fs si) (ph, s));
    [now split | exact Hr | exact Hph].
Qed.

(** X27.  After a successful load on a page with the three controls and
    the list container, whatever events follow, the display stays
    current: the master collection is the array received, the list area
    shows the first ten records of the view, and, unless a debounce timer
    is pending, the view is the one the controls' present values
    select. *)
Theorem display_stays_current `{Host} (status : Z) (data : list Blog)
    (lc ss fs si : Element) (li ec : option Element) (evs : list event) :
  ok status = true ->
  display_current data
    (run evs
       (state_of (init (Response status (JsonArray data))
                       (constructor (Some lc) li ec (Some ss) (Some fs) (Some si))))).
Proof.
  intros Hok. apply run_display_current.
  now apply (init_display_current status data _ si fs ss lc).
Qed.

Section SortConsistent.
Context {A : Type} (comparefn : A -> A -> JS.number).

Lemma consistent_tail (x : A) (l : list A) :
  consistent comparefn (x :: l) -> consistent comparefn l.
Proof.
  intros [Ht Hr]. split.
  - intros a b Ha Hb. apply Ht; now right.
  - intros a b c Ha Hb Hc. apply Hr; now right.
Qed.

Lemma consistent_perm (l l' : list A) :
  Permutation l l' -> consistent comparefn l -> consistent comparefn l'.
Proof.
  intros Hp [Ht Hr]. symmetry in Hp.
  pose proof (fun a => Permutation_in a Hp) as Hin. split.
  - intros a b Ha Hb. apply Ht; now apply Hin.
  - intros a b c Ha Hb Hc. apply Hr; now apply Hin.
Qed.

Lemma insert_sorted_consistent (x : A) (l : list A) :
  consistent comparefn (x :: l) ->
  StronglySorted (fun a b => JS.SortCompare comparefn a b <= 0) l ->
  StronglySorted (fun a b => JS.SortCompare comparefn a b <= 0)
                 (JS.insert comparefn x l).
Proof.
  intros Hc Hs. induction Hs as [|y l Hs IH Hy]; simpl.
  - repeat constructor.
  - destruct Hc as [Ht Hr].
    destruct (Z.leb_spec (JS.SortCompare comparefn x y) 0) as [Hle|Hgt].
    + constructor; [now constructor|].
      constructor; [exact Hle|].
      rewrite List.Forall_forall in Hy |- *. intros z Hz.
      apply (Hr x y z); simpl; auto.
    + constructor.
      * apply IH. split.
        -- intros a b Ha Hb. apply Ht; simpl in *; tauto.
        -- intros a b c Ha Hb Hc. apply Hr; simpl in *; tauto.
      * apply List.Forall_forall. intros z Hz.
        apply (Permutation_in _ (insert_perm comparefn x l)) in Hz as [<-|Hz].
        -- destruct (Ht x y) as [Hxy|Hyx]; simpl; auto. lia.
        -- rewrite List.Forall_forall in Hy. now apply Hy.
Qed.

Lemma sort_sorted_consistent (l : list A) :
  consistent comparefn l ->
  StronglySorted (fun a b => JS.SortCompare comparefn a b <= 0)
                 (JS.sort comparefn l).
Proof.
  induction l as [|x l IH]; intros Hc; simpl; [constructor|].
  apply insert_sorted_consistent.
  - apply (consistent_perm (x :: l)); [|exact Hc].
    constructor. symmetry. apply sort_perm.
  - apply IH. now apply consistent_tail in Hc.
Qed.

(** Elements of a class [p] whose members are never strictly after one
    another keep their order. *)
Lemma insert_stable_class (p : A -> bool) (x : A) (l : list A) :
  (forall y, In y l -> p x = true -> p y = true ->
     JS.SortCompare comparefn x y <= 0) ->
  List.filter p (JS.insert comparefn x l) = List.filter p (x :: l).
Proof.
  intros Hp. induction l as [|y l IH]; [reflexivity|].
  cbn [JS.insert].
  destruct (Z.leb_spec (JS.SortCompare comparefn x y) 0) as [Hle|Hgt];
    [reflexivity|].
  cbn [List.filter]. cbn [List.filter] in IH.
  rewrite IH by (intros z Hz; apply Hp; now right).
  destruct (p x) eqn:Hx, (p y) eqn:Hy; try reflexivity.
  specialize (Hp y (or_introl eq_refl) eq_refl Hy). lia.
Qed.

Lemma sort_stable_class (p : A -> bool) (l : list A) :
  (forall x y, In x l -> In y l -> p x = true -> p y = true ->
     JS.SortCompare comparefn x y <= 0) ->
  List.filter p (JS.sort comparefn l) = List.filter p l.
Proof.
  induction l as [|x l IH]; intros Hp; [reflexivity|].
  cbn [JS.sort]. rewrite insert_stable_class.
  - cbn [List.filter]. rewrite IH; [reflexivity|].
    intros a b Ha Hb. apply Hp; now right.
  - intros y Hy. apply Hp; [now left|].
    right. now apply (Permutation_in _ (sort_perm comparefn l)).
Qed.

End SortConsistent.

(** X26.  With sort type [category] and a host whose collation is total
    and transitive on the categories present, the view is the records
    rearranged in the collation's order of their categories, an absent
    or empty category counting as the empty string; records of the same
    category keep their order. *)
Theorem category_sort_is_ordered_and_stable `{Host} (l : list Blog) :
  consistent (comparator "category") l ->
  let view := sortStep "category" l in
  Permutation view l /\
  StronglySorted (fun a b => localeCompare (category_of a) (category_of b) <= 0)
                 view /\
  forall c,
    List.filter (fun blog => String.eqb (category_of blog) c) view =
    List.filter (fun blog => String.eqb (category_of blog) c) l.
Proof.
  intros Hc view. split; [apply sortStep_perm|]. split.
  - exact (sort_sorted_consistent _ l Hc).
  - intros c. apply (sort_stable_class (comparator "category")).
    intros x y Hx _ Hxc Hyc.
    apply String.eqb_eq in Hxc, Hyc.
    destruct Hc as [Ht _]. destruct (Ht x x Hx Hx) as [Hxx|Hxx];
      change (localeCompare (category_of x) (category_of y) <= 0);
      change (localeCompare (category_of x) (category_of x) <= 0) in Hxx;
      now rewrite Hyc, <- Hxc.
Qed.

(** ** The further properties on concrete inputs *)

Lemma failed_load_witness :
  failure_cause (Response 404 JsonOther) = Some "Failed to fetch blogs (Status: 404)" /\
  errorContainer Sample.fresh_page = Some Sample.errorBox /\
  listContainer Sample.fresh_page = Some (Sample.el EmptyString) /\
  text <$> errorContainer (state_of (init (Response 404 JsonOther) Sample.fresh_page)) =
    Some "Error: Data loading failed: Failed to fetch blogs (Status: 404). Please check the console for details.".
Proof.
  repeat (split; [reflexivity|]).
  rewrite (failed_load_is_reported (Response 404 JsonOther) _ Sample.fresh_page
             Sample.errorBox (Sample.el EmptyString) eq_refl eq_refl eq_refl).
  reflexivity.
Defined.

Lemma silent_failure_witness :
  failure_cause (Rejected "Failed to fetch") = Some "Failed to fetch" /\
  errorContainer (set_errorContainer None Sample.fresh_page) = None /\
  listContainer (state_of (init (Rejected "Failed to fetch")
                             (set_errorContainer None Sample.fresh_page))) =
    Some (Sample.el EmptyString).
Proof.
  repeat (split; [reflexivity|]).
  rewrite (failed_load_without_error_container_is_silent (Rejected "Failed to fetch") _
             (set_errorContainer None Sample.fresh_page) eq_refl eq_refl).
  reflexivity.
Defined.

Lemma successful_load_witness :
  ok 200 = true /\
  searchInput Sample.fresh_page = Some (Sample.el EmptyString) /\
  exists s',
    init (Response 200 (JsonArray [Sample.ai; Sample.garden])) Sample.fresh_page =
      Normal tt s' /\
    contents (heap s') (items s') = [Sample.ai; Sample.garden].
Proof.
  split; [reflexivity|]. split; [reflexivity|].
  destruct (successful_load_shows_view 200 [Sample.ai; Sample.garden] Sample.fresh_page
              (Sample.el EmptyString) (Sample.el EmptyString) (Sample.el EmptyString)
              (Sample.el EmptyString) eq_refl eq_refl eq_refl eq_refl eq_refl)
    as (s' & Hrun & Hitems & _).
  exists s'. split; assumption.
Defined.

Lemma dead_controls_witness :
  failure_cause (Response 500 JsonOther) = Some "Failed to fetch blogs (Status: 500)" /\
  listening (run [ChangeSort "date"; InputSearch "ai"; TimerFires]
               (state_of (init (Response 500 JsonOther) Sample.fresh_page))) = false.
Proof.
  split; [reflexivity|].
  exact (proj1 (controls_are_dead_after_failed_load
                  (Some (Sample.el EmptyString)) (Some Sample.spinner)
                  (Some Sample.errorBox) (Some (Sample.el EmptyString))
                  (Some (Sample.el EmptyString)) (Some (Sample.el EmptyString))
                  (Response 500 JsonOther) _
                  [ChangeSort "date"; InputSearch "ai"; TimerFires] eq_refl)).
Defined.

Lemma debounce_witness :
  listening Sample.loaded = true /\
  searchInput Sample.loaded = Some (Sample.el EmptyString) /\
  run (map InputSearch (["g"; "ga"] ++ ["gar"])) Sample.loaded =
    set_searchTimer true
      (set_searchInput (Some (with_value "gar" (Sample.el EmptyString))) Sample.loaded).
Proof.
  repeat (split; [reflexivity|]).
  exact (proj1 (search_input_is_debounced Sample.loaded (Sample.el EmptyString)
                  (Sample.el EmptyString) (Sample.el EmptyString) _
                  ["g"; "ga"] "gar" eq_refl eq_refl eq_refl eq_refl eq_refl)).
Defined.

Lemma at_most_ten_witness :
  reachable Sample.loaded /\
  searchInput Sample.loaded = Some (Sample.el EmptyString) /\
  exists s', onControlChange Sample.loaded = Normal tt s'.
Proof.
  split; [exact loaded_reachable|]. split; [reflexivity|].
  destruct (control_change_shows_at_most_ten Sample.loaded (Sample.el EmptyString)
              (Sample.el EmptyString) (Sample.el EmptyString) _
              loaded_reachable eq_refl eq_refl eq_refl eq_refl) as (s' & Hrun & _).
  now exists s'.
Defined.

Lemma unknown_sort_type_witness :
  "title" <> "date" /\ "title" <> "reading_time" /\ "title" <> "category" /\
  sortStep "title" [Sample.garden; Sample.ai] = [Sample.garden; Sample.ai].
Proof.
  assert (H1 : "title" <> "date") by discriminate.
  assert (H2 : "title" <> "reading_time") by discriminate.
  assert (H3 : "title" <> "category") by discriminate.
  repeat (split; [assumption|]).
  exact (unknown_sort_type_keeps_order "title" [Sample.garden; Sample.ai] H1 H2 H3).
Defined.

Lemma longer_term_witness :
  substring_of (toLowerCase "ai") (toLowerCase "AI in") /\
  searchStep "AI in" (searchStep "ai" [Sample.ai; Sample.garden; Sample.seed]) =
    searchStep "AI in" [Sample.ai; Sample.garden; Sample.seed].
Proof.
  assert (H : substring_of (toLowerCase "ai") (toLowerCase "AI in"))
    by (exists EmptyString, " in"; reflexivity).
  split; [exact H|].
  exact (proj1 (longer_term_narrows_search [Sample.ai; Sample.garden; Sample.seed]
                  "ai" "AI in" H)).
Defined.

Lemma render_witness :
  listContainer Sample.fresh_page = Some (Sample.el EmptyString) /\
  exists html,
    render Sample.fresh_page =
      Normal tt (set_listContainer (Some (with_text html (Sample.el EmptyString)))
                                   Sample.fresh_page) /\
    html <> EmptyString.
Proof.
  split; [reflexivity|].
  destruct (render_shows_no_results_iff_slice_empty Sample.fresh_page
              (Sample.el EmptyString) eq_refl) as (html & Hrun & _ & _ & Hne).
  now exists html.
Defined.

Lemma missing_search_input_witness :
  ok 200 = true /\
  searchInput (set_searchInput None Sample.fresh_page) = None /\
  exists s',
    init (Response 200 (JsonArray [Sample.ai])) (set_searchInput None Sample.fresh_page) =
      Normal tt s' /\
    listening s' = true.
Proof.
  split; [reflexivity|]. split; [reflexivity|].
  destruct (load_without_search_input_ends_in_error 200 [Sample.ai]
              (set_searchInput None Sample.fresh_page) Sample.errorBox
              (Sample.el EmptyString) eq_refl eq_refl eq_refl eq_refl)
    as (s' & Hrun & _ & Hl & _).
  exists s'. split; assumption.
Defined.

Lemma menu_in_sync_witness :
  Menu.in_sync Page.closedMenu /\
  Menu.in_sync (Menu.clicks [Menu.OnToggle; Menu.OnLink 1024; Menu.OnLink 480]
                            Page.closedMenu).
Proof.
  assert (H : Menu.in_sync Page.closedMenu) by (split; discriminate).
  split; [exact H|].
  exact (menu_class_and_aria_stay_in_sync
           [Menu.OnToggle; Menu.OnLink 1024; Menu.OnLink 480] Page.closedMenu H).
Defined.

Lemma highlight_unchanged_witness :
  forallb (fun e => negb (Nav.effective Page.links e))
          [Page.leaving "drag-section"; Page.entering "footer"] = true /\
  Nav.callback [Page.leaving "drag-section"; Page.entering "footer"] Page.links =
    Page.links.
Proof.
  split; [reflexivity|].
  exact (highlight_unchanged_without_effective_entry
           [Page.leaving "drag-section"; Page.entering "footer"] Page.links eq_refl).
Defined.

Lemma highlight_witness :
  Nav.querySelector ("#" +:+ Nav.targetId (Page.entering "list-section")) Page.links =
    Some 1%nat /\
  Nav.isIntersecting (Page.entering "list-section") = true /\
  exists l,
    Nav.callback ([Page.entering "drag-section"] ++
                  Page.entering "list-section" :: [Page.leaving "drag-section"])
                 Page.links !! 1%nat = Some l /\
    Nav.active l = true.
Proof.
  split; [reflexivity|]. split; [reflexivity|].
  exact (proj1 (highlight_follows_last_effective_entry Page.links
                  [Page.entering "drag-section"] [Page.leaving "drag-section"]
                  (Page.entering "list-section") 1 eq_refl eq_refl eq_refl)).
Defined.

Lemma well_formed_body : Dom.well_formed Page.body.
Proof. apply (bool_decide_unpack _). vm_compute. exact I. Qed.

Lemma drop_witness :
  Dom.well_formed (Dom.document Page.dragDrop) /\
  In 4%nat (Dom.nids (Dom.document Page.dragDrop)) /\
  Dom.getElementById "item-1" (Dom.document Page.dragDrop) = Some Page.item1 /\
  ~ In 4%nat (Dom.nids Page.item1) /\
  exists doc',
    Dom.handleDrop 4 "item-1" Page.dragDrop =
      Dom.Returned (Dom.with_document doc' Page.dragDrop) /\
    Dom.well_formed doc'.
Proof.
  assert (Hin : In 4%nat (Dom.nids (Dom.document Page.dragDrop)))
    by (vm_compute; tauto).
  assert (Hout : ~ In 4%nat (Dom.nids Page.item1))
    by (vm_compute; intros [H|[]]; discriminate H).
  split; [exact well_formed_body|]. split; [exact Hin|].
  split; [reflexivity|]. split; [exact Hout|].
  destruct (drop_moves_the_element Page.dragDrop 4 "item-1" Page.item1
              well_formed_body Hin eq_refl Hout) as (doc' & Hrun & Hwf & _).
  now exists doc'.
Defined.

Lemma unknown_id_witness :
  Dom.getElementById "item-9" (Dom.document Page.dragDrop) = None /\
  Dom.handleDrop 5 "item-9" Page.dragDrop =
    Dom.Returned (Dom.handleDragLeave 5 Page.dragDrop).
Proof.
  split; [reflexivity|].
  exact (proj1 (drop_of_unknown_id_is_a_leave Page.dragDrop 5 "item-9" eq_refl)).
Defined.

Lemma refused_drop_witness :
  Dom.getElementById "zone-b" (Dom.document Page.dragDrop) = Some Page.zoneB /\
  In 5%nat (Dom.nids Page.zoneB) /\
  Dom.handleDrop 5 "zone-b" Page.dragDrop =
    Dom.Threw "HierarchyRequestError" (Dom.handleDragLeave 5 Page.dragDrop).
Proof.
  assert (Hin : In 5%nat (Dom.nids Page.zoneB)) by (vm_compute; tauto).
  split; [reflexivity|]. split; [exact Hin|].
  exact (drop_onto_own_descendant_throws Page.dragDrop 5 "zone-b" Page.zoneB eq_refl Hin).
Defined.

Lemma dragging_class_witness :
  Dom.well_formed (Dom.document Page.dragDrop) /\
  Dom.classes_at 2 (Dom.document Page.dragDrop) = Some ["draggable-item"] /\
  ClassList.contains "dragging" ["draggable-item"] = false /\
  Dom.handleDragEnd (fst (Dom.handleDragStart 2 Page.dragDrop)) = Page.dragDrop.
Proof.
  split; [exact well_formed_body|]. repeat (split; [reflexivity|]).
  exact (proj1 (proj2 (proj2 (dragging_class_round_trip Page.dragDrop 2
                                ["draggable-item"] well_formed_body eq_refl eq_refl)))).
Defined.

Lemma hover_witness :
  Dom.classes_at 4 (Dom.document Page.dragDrop) = Some ["drop-zone"] /\
  exists cl',
    Dom.classes_at 4
      (Dom.document (Dom.hovers 4 ([Dom.Enter; Dom.Enter] ++ [Dom.Leave]) Page.dragDrop)) =
      Some cl' /\
    ClassList.contains "drag-over" cl' = false.
Proof.
  split; [reflexivity|].
  exact (highlight_follows_last_hover Page.dragDrop 4 [Dom.Enter; Dom.Enter] Dom.Leave
           ["drop-zone"] eq_refl).
Defined.

Lemma item_without_id_witness :
  Dom.find 6 (Dom.document Page.dragDrop) = Some Page.unnamed /\
  Dom.id_of Page.unnamed = EmptyString /\
  snd (Dom.handleDragStart 6 Page.dragDrop) = EmptyString.
Proof.
  repeat (split; [reflexivity|]).
  exact (proj1 (item_without_id_is_not_moved Page.dragDrop 6 4 Page.unnamed
                  eq_refl eq_refl)).
Defined.

Lemma unsettled_witness :
  idle (handle (ChangeSort "date") (state_of (showLoading Sample.fresh_page))) /\
  apart_from_controls
    (handle (ChangeSort "date") (state_of (showLoading Sample.fresh_page))) =
  apart_from_controls (state_of (showLoading Sample.fresh_page)).
Proof.
  apply (controls_are_dead_until_settled
           (Some (Sample.el EmptyString)) (Some Sample.spinner)
           (Some Sample.errorBox) (Some (Sample.el EmptyString))
           (Some (Sample.el EmptyString)) (Some (Sample.el EmptyString))
           Loading).
  - eapply rtc_l; [apply step_init|].
    eapply rtc_l; [apply (step_event _ _ (ChangeSort "date"))|].
    apply rtc_refl.
  - discriminate.
Defined.

Lemma display_current_witness :
  ok 200 = true /\
  display_current [Sample.ai; Sample.garden; Sample.seed]
    (run [InputSearch "AI"; ChangeFilter "Gadgets"; TimerFires] Sample.loaded).
Proof.
  split; [reflexivity|].
  exact (display_stays_current 200 [Sample.ai; Sample.garden; Sample.seed]
           (Sample.el EmptyString) (Sample.el EmptyString)
           (Sample.el EmptyString) (Sample.el EmptyString)
           (Some Sample.spinner) (Some Sample.errorBox)
           [InputSearch "AI"; ChangeFilter "Gadgets"; TimerFires] eq_refl).
Defined.

Lemma sample_categories_consistent :
  consistent (comparator "category")
             [Sample.garden; Sample.ai; Sample.seed; Sample.undated].
Proof.
  split.
  - intros x y Hx Hy.
    repeat (destruct Hx as [<-|Hx]; [|]); try contradiction;
    repeat (destruct Hy as [<-|Hy]; [|]); try contradiction;
    first [left; cbv; intros E; discriminate E
          |right; cbv; intros E; discriminate E].
  - intros x y z Hx Hy Hz H1 H2.
    repeat (destruct Hx as [<-|Hx]; [|]); try contradiction;
    repeat (destruct Hy as [<-|Hy]; [|]); try contradiction;
    repeat (destruct Hz as [<-|Hz]; [|]); try contradiction;
    cbv in H1, H2 |- *;
    first [intros E; discriminate E
          |exfalso; apply H1; reflexivity
          |exfalso; apply H2; reflexivity].
Qed.

Lemma category_sort_witness :
  sortStep "category" [Sample.garden; Sample.ai; Sample.seed; Sample.undated] =
    [Sample.ai; Sample.seed; Sample.garden; Sample.undated] /\
  StronglySorted
    (fun a b => localeCompare (category_of a) (category_of b) <= 0)
    (sortStep "category" [Sample.garden; Sample.ai; Sample.seed; Sample.undated]).
Proof.
  split; [reflexivity|].
  exact (proj1 (proj2 (category_sort_is_ordered_and_stable
                         [Sample.garden; Sample.ai; Sample.seed; Sample.undated]
                         sample_categories_consistent))).
Defined.
